(** * FRED-analysis: rate-cut cycle detection and window metrics

    A shallow embedding of the analytical core of [src/app.py]:
    - [find_cut_cycles] (lines 59-70), the rate-cut cycle detector;
    - the pass-through lag loop of tab 1 (lines 163-183);
    - the pre/post growth loop of tab 3 (lines 295-315);
    - the module-level no-cycles guard (lines 111-117).

    Conventions of the embedding.
    - A pandas [Timestamp] is the integer number of nanoseconds since the
      epoch, a [Timedelta] is a difference of two of them.
    - A float is an exact rational or the missing-value marker NaN
      ([fval = option Q]); arithmetic and comparisons propagate NaN the way
      IEEE comparisons do (every comparison with NaN is false, [!=] is true).
      Rounding and infinities are outside the model.
    - A pandas [Series] is the list of its (index, value) rows in storage
      order. *)

From Stdlib Require Import ZArith QArith Qround Qabs List Bool Lia String Ascii.
From Stdlib Require Import Sorted DecimalString.
From Stdlib Require Floats DecimalNat.
Import ListNotations.

Set Implicit Arguments.
Open Scope Z_scope.

(** ** Timestamps and the proleptic Gregorian calendar *)

Module Calendar.

Definition Timestamp : Type := Z.
Definition Timedelta : Type := Z.

Definition ns_per_day : Z := 86400000000000.

(** [Timedelta.days]: whole days, rounded towards minus infinity. *)
Definition days (delta : Timedelta) : Z := delta / ns_per_day.

Definition is_leap (y : Z) : bool :=
  ((y mod 4 =? 0) && negb (y mod 100 =? 0)) || (y mod 400 =? 0).

Definition days_in_month (y m : Z) : Z :=
  if m =? 2 then (if is_leap y then 29 else 28)
  else if (m =? 4) || (m =? 6) || (m =? 9) || (m =? 11) then 30
  else 31.

(** Day number (days since 1970-01-01) of a civil date. *)
Definition days_from_civil (y m d : Z) : Z :=
  let y'  := if m <=? 2 then y - 1 else y in
  let era := y' / 400 in
  let yoe := y' - era * 400 in
  let mp  := if 2 <? m then m - 3 else m + 9 in
  let doy := (153 * mp + 2) / 5 + d - 1 in
  let doe := yoe * 365 + yoe / 4 - yoe / 100 + doy in
  era * 146097 + doe - 719468.

(** Civil date (year, month, day) of a day number. *)
Definition civil_from_days (z : Z) : Z * Z * Z :=
  let z'  := z + 719468 in
  let era := z' / 146097 in
  let doe := z' - era * 146097 in
  let yoe := (doe - doe / 1460 + doe / 36524 - doe / 146096) / 365 in
  let doy := doe - (365 * yoe + yoe / 4 - yoe / 100) in
  let mp  := (5 * doy + 2) / 153 in
  let d   := doy - (153 * mp + 2) / 5 + 1 in
  let m   := if mp <? 10 then mp + 3 else mp - 9 in
  let y   := yoe + era * 400 in
  (if m <=? 2 then y + 1 else y, m, d).

(** Midnight of a civil date. *)
Definition ymd (y m d : Z) : Timestamp := days_from_civil y m d * ns_per_day.

(** [ts + pd.DateOffset(months=k)]: the calendar month moves by [k], the
    day of the month is clipped to the length of the target month and the
    time of day is kept. *)
Definition add_months (ts : Timestamp) (k : Z) : Timestamp :=
  let dn  := ts / ns_per_day in
  let tod := ts mod ns_per_day in
  let '(y, m, d) := civil_from_days dn in
  let total := y * 12 + (m - 1) + k in
  let y' := total / 12 in
  let m' := total mod 12 + 1 in
  let d' := Z.min d (days_in_month y' m') in
  days_from_civil y' m' d' * ns_per_day + tod.

Definition month_abbr (m : Z) : string :=
  match m with
  | 1 => "Jan" | 2 => "Feb" | 3 => "Mar" | 4 => "Apr"
  | 5 => "May" | 6 => "Jun" | 7 => "Jul" | 8 => "Aug"
  | 9 => "Sep" | 10 => "Oct" | 11 => "Nov" | _ => "Dec"
  end%string.

Definition show_Z (z : Z) : string :=
  NilEmpty.string_of_int (Z.to_int z).

(** [ts.strftime('%b %Y')] (years of four digits). *)
Definition strftime_b_Y (ts : Timestamp) : string :=
  let '(y, m, _) := civil_from_days (ts / ns_per_day) in
  (month_abbr m ++ " " ++ show_Z y)%string.

End Calendar.
Export Calendar.

(** ** Floats with a missing-value marker *)

Module Float.

Definition fval : Type := option Q.
Definition NaN : fval := None.

Definition isna (v : fval) : bool :=
  match v with None => true | Some _ => false end.

Definition Qlt_bool (x y : Q) : bool := negb (Qle_bool y x).

Definition lift2 (op : Q -> Q -> Q) (a b : fval) : fval :=
  match a, b with
  | Some x, Some y => Some (op x y)
  | _, _ => NaN
  end.

Definition fsub : fval -> fval -> fval := lift2 Qminus.
Definition fmul : fval -> fval -> fval := lift2 Qmult.

(** [a < b], [a <= b], [a != b] on floats. *)
Definition flt (a b : fval) : bool :=
  match a, b with Some x, Some y => Qlt_bool x y | _, _ => false end.
Definition fle (a b : fval) : bool :=
  match a, b with Some x, Some y => Qle_bool x y | _, _ => false end.
Definition fne (a b : fval) : bool :=
  match a, b with Some x, Some y => negb (Qeq_bool x y) | _, _ => true end.

End Float.
Export Float.

(** ** Series *)

Definition Series : Type := list (Timestamp * fval).

Definition index (s : Series) : list Timestamp := map fst s.
Definition values (s : Series) : list fval := map snd s.
Definition empty (s : Series) : bool :=
  match s with [] => true | _ :: _ => false end.

(** [s.dropna()] *)
Definition dropna (s : Series) : Series :=
  filter (fun row => negb (isna (snd row))) s.

(** [s.diff()]: the first row has no predecessor and holds NaN. *)
Fixpoint diff_from (prev : fval) (s : Series) : Series :=
  match s with
  | [] => []
  | (t, v) :: rest => (t, fsub v prev) :: diff_from v rest
  end.

Definition diff (s : Series) : Series :=
  match s with
  | [] => []
  | (t, v) :: rest => (t, NaN) :: diff_from v rest
  end.

(** [l[start:]] with Python's treatment of negative and overlong bounds. *)
Definition slice_from (A : Type) (l : list A) (start : Z) : list A :=
  let len := Z.of_nat (List.length l) in
  let lo  := if start <? 0 then Z.max (len + start) 0 else Z.min start len in
  skipn (Z.to_nat lo) l.

(** [l.head(k)] *)
Definition head (A : Type) (k : nat) (l : list A) : list A := firstn k l.

(** ** Rate-cut cycle detection ([find_cut_cycles], lines 59-70) *)

Definition drop_threshold : fval := Some (-(5 # 100))%Q.
Definition min_spacing_days : Z := 180.

(** [delta[delta < -0.05].index] for [delta = fedfunds.diff().dropna()] *)
Definition cut_months (fedfunds : Series) : list Timestamp :=
  let delta := dropna (diff fedfunds) in
  index (filter (fun row => flt (snd row) drop_threshold) delta).

(** The loop state: the list [cycles] and the variable [prev]. *)
Record walk_state : Type := WalkState
  { cycles : list Timestamp; prev : option Timestamp }.

Definition starts_cycle (prev : option Timestamp) (dt : Timestamp) : bool :=
  match prev with
  | None => true
  | Some p => min_spacing_days <? days (dt - p)
  end.

(** One iteration of [for dt in cut_months]. *)
Definition cycle_step (st : walk_state) (dt : Timestamp) : walk_state :=
  {| cycles := if starts_cycle (prev st) dt then cycles st ++ [dt] else cycles st;
     prev := Some dt |}.

Definition walk (cuts : list Timestamp) : walk_state :=
  fold_left cycle_step cuts {| cycles := []; prev := None |}.

Definition find_cut_cycles (fedfunds : Series) (n : Z) : list Timestamp :=
  let cuts := cut_months fedfunds in
  if (List.length cuts =? 0)%nat then []
  else slice_from (cycles (walk cuts)) (- n).

(** ** Exceptions *)

Inductive result (A : Type) : Type :=
| Ok (a : A)
| Raise (exn : string).
Arguments Ok {A} a.
Arguments Raise {A} exn.

Definition bind (A B : Type) (m : result A) (k : A -> result B) : result B :=
  match m with
  | Ok a => k a
  | Raise e => Raise e
  end.

Notation "x <- m ;; k" := (bind m (fun x => k))
  (at level 61, m at next level, right associativity).

(** ** [Series.asof] at a scalar (pandas, [NDFrame.asof]) *)

Fixpoint is_monotonic_increasing (idx : list Timestamp) : bool :=
  match idx with
  | [] => true
  | t :: rest =>
      match rest with
      | [] => true
      | u :: _ => (t <=? u) && is_monotonic_increasing rest
      end
  end.

(** [idx.searchsorted(w, side="right")] on a sorted index: the number of
    leading entries that are [<= w]. *)
Fixpoint searchsorted_right (idx : list Timestamp) (w : Timestamp) : nat :=
  match idx with
  | [] => O
  | t :: rest => if t <=? w then S (searchsorted_right rest w) else O
  end.

(** [while loc > 0 and isna(values[loc]): loc -= 1; return values[loc]] *)
Fixpoint back_to_valid (vals : list fval) (loc : nat) : fval :=
  match loc with
  | O => nth O vals NaN
  | S l =>
      let v := nth loc vals NaN in
      if isna v then back_to_valid vals l else v
  end.

Definition asof (s : Series) (w : Timestamp) : result fval :=
  if negb (is_monotonic_increasing (index s)) then
    Raise "asof requires a sorted index"
  else
    match s with
    | [] => Raise "index 0 is out of bounds"
    | (start, _) :: _ =>
        if w <? start then Ok NaN
        else
          let loc := searchsorted_right (index s) w in
          let loc := if (0 <? loc)%nat then (loc - 1)%nat else loc in
          Ok (back_to_valid (values s) loc)
    end.

(** ** Pass-through lag (tab 1, lines 172-182) *)

Definition lookahead_months : nat := 24.
Definition decline_threshold : fval := Some (-(25 # 100))%Q.

(** [next((j for j, v in enumerate(vals, start) if p v), None)] *)
Fixpoint next_index (A : Type) (p : A -> bool) (vals : list A) (start : nat)
  : option nat :=
  match vals with
  | [] => None
  | v :: rest => if p v then Some start else next_index p rest (S start)
  end.

Inductive lag_result : Type :=
| LagNA                    (* "n/a"    : no base value at the cycle start *)
| LagMonths (idx : nat)    (* "{idx} mo" *)
| LagExceeds.              (* ">24 mo" : no qualifying decline in the window *)

Definition show_nat (n : nat) : string :=
  NilEmpty.string_of_uint (Nat.to_uint n).

Definition render_lag (l : lag_result) : string :=
  match l with
  | LagNA => "n/a"
  | LagMonths idx => show_nat idx ++ " mo"
  | LagExceeds => ">24 mo"
  end%string.

(** [series[series.index >= dt].head(24)] *)
Definition lag_window (series : Series) (dt : Timestamp) : Series :=
  head lookahead_months (filter (fun row => dt <=? fst row) series).

Definition qualifies (base v : fval) : bool :=
  negb (isna v) && fle (fsub v base) decline_threshold.

Definition lag_from (base : fval) (post : Series) : lag_result :=
  if isna base then LagNA
  else
    match next_index (qualifies base) (values post) O with
    | Some idx => LagMonths idx
    | None => LagExceeds
    end.

Definition pass_through_lag (series : Series) (dt : Timestamp)
  : result lag_result :=
  base <- asof series dt ;;
  let post := lag_window series dt in
  Ok (lag_from base post).

(** ** Pre/post growth (tab 3, lines 301-315) *)

Definition window_months : Z := 12.

Definition Qsum (xs : list Q) : Q := fold_left Qplus xs 0%Q.

Fixpoint present (vals : list fval) : list Q :=
  match vals with
  | [] => []
  | Some x :: rest => x :: present rest
  | None :: rest => present rest
  end.

(** [s.mean()]: missing values are skipped; NaN when nothing is left. *)
Definition mean (s : Series) : fval :=
  match present (values s) with
  | [] => NaN
  | xs => Some (Qsum xs / inject_Z (Z.of_nat (List.length xs)))%Q
  end.

(** Float division; a zero divisor is a fault. *)
Definition fdiv (a b : fval) : result fval :=
  match b with
  | Some d =>
      if Qeq_bool d 0 then Raise "float division by zero"
      else Ok (lift2 Qdiv a b)
  | None => Ok NaN
  end.

Definition post_window (series : Series) (dt : Timestamp) : Series :=
  filter (fun row => (dt <? fst row) && (fst row <=? add_months dt window_months))
         series.

Definition pre_window (series : Series) (dt : Timestamp) : Series :=
  filter (fun row => (add_months dt (- window_months) <? fst row) && (fst row <=? dt))
         series.

(** The guarded body of the growth loop: [None] when no row is appended. *)
Definition pre_post_growth (series : Series) (dt : Timestamp)
  : result (option fval) :=
  let post := post_window series dt in
  let pre  := pre_window series dt in
  if negb (empty post) && negb (empty pre) && fne (mean pre) (Some 0%Q) then
    q <- fdiv (fsub (mean post) (mean pre)) (mean pre) ;;
    Ok (Some (fmul q (Some 100%Q)))
  else Ok None.

(** [f"{pct:+.1f}%"]: sign, one decimal, ties to even. *)
Definition round_half_even (q : Q) : Z :=
  let fl := Qfloor q in
  let frac := (q - inject_Z fl)%Q in
  match (frac ?= 1 # 2)%Q with
  | Lt => fl
  | Gt => fl + 1
  | Eq => if Z.even fl then fl else fl + 1
  end.

Definition format_pct (pct : fval) : string :=
  match pct with
  | None => "+nan%"
  | Some q =>
      let tenths := round_half_even (Qabs q * 10)%Q in
      ((if Qlt_bool q 0 then "-" else "+")
         ++ show_Z (tenths / 10) ++ "." ++ show_Z (tenths mod 10) ++ "%")
  end%string.

(** ** The table loops and the module-level guard *)

Record table_row : Type := TableRow
  { row_cycle : string; row_series : string; row_value : string }.

(** [f"Cycle {i+1}  ({dt.strftime('%b %Y')})"] *)
Definition cycle_label (i : nat) (dt : Timestamp) : string :=
  ("Cycle " ++ show_nat (i + 1) ++ "  (" ++ strftime_b_Y dt ++ ")")%string.

(** The inner [for sname, series in [...]] of the lag table; an empty
    series is skipped by [continue]. *)
Fixpoint lag_rows_of_cycle (label : string) (dt : Timestamp)
    (named : list (string * Series)) : result (list table_row) :=
  match named with
  | [] => Ok []
  | (sname, series) :: rest =>
      if empty series then lag_rows_of_cycle label dt rest
      else
        lag <- pass_through_lag series dt ;;
        rows <- lag_rows_of_cycle label dt rest ;;
        Ok ({| row_cycle := label; row_series := sname;
               row_value := render_lag lag |} :: rows)
  end.

(** [for i, dt in enumerate(cut_dates)], counting from [i]. *)
Fixpoint lag_rows (i : nat) (cut_dates : list Timestamp)
    (named : list (string * Series)) : result (list table_row) :=
  match cut_dates with
  | [] => Ok []
  | dt :: rest =>
      here <- lag_rows_of_cycle (cycle_label i dt) dt named ;;
      later <- lag_rows (S i) rest named ;;
      Ok (here ++ later)
  end.

Fixpoint growth_rows_of_cycle (label : string) (dt : Timestamp)
    (named : list (string * Series)) : result (list table_row) :=
  match named with
  | [] => Ok []
  | (sname, series) :: rest =>
      if empty series then growth_rows_of_cycle label dt rest
      else
        g <- pre_post_growth series dt ;;
        rows <- growth_rows_of_cycle label dt rest ;;
        match g with
        | Some pct =>
            Ok ({| row_cycle := label; row_series := sname;
                   row_value := format_pct pct |} :: rows)
        | None => Ok rows
        end
  end.

Fixpoint growth_rows (i : nat) (cut_dates : list Timestamp)
    (named : list (string * Series)) : result (list table_row) :=
  match cut_dates with
  | [] => Ok []
  | dt :: rest =>
      here <- growth_rows_of_cycle (cycle_label i dt) dt named ;;
      later <- growth_rows (S i) rest named ;;
      Ok (here ++ later)
  end.

(** What a run of the script shows: either the error box followed by
    [st.stop()], or the two tables. *)
Inductive run_outcome : Type :=
| Stopped (message : string)
| Rendered (lag_table growth_table : list table_row).

Definition no_cycles_message : string :=
  "Could not detect rate-cut cycles in FEDFUNDS data.".

Definition dashboard (fedfunds mortgage dprime rsxfs pce : Series)
  : result run_outcome :=
  let cut_dates := find_cut_cycles fedfunds 3 in
  match cut_dates with
  | [] => Ok (Stopped no_cycles_message)
  | _ :: _ =>
      lags <- lag_rows O cut_dates
                [("Mortgage (MORTGAGE30US)"%string, mortgage);
                 ("Prime (DPRIME)"%string, dprime)] ;;
      growth <- growth_rows O cut_dates
                  [("RSXFS"%string, rsxfs); ("PCE"%string, pce)] ;;
      Ok (Rendered lags growth)
  end.

(** * Definitions for the statements *)

(** ** The loop as a recursion on the remaining cut months *)

Fixpoint starts_from (prev : option Timestamp) (cuts : list Timestamp)
  : list Timestamp :=
  match cuts with
  | [] => []
  | dt :: rest =>
      if starts_cycle prev dt then dt :: starts_from (Some dt) rest
      else starts_from (Some dt) rest
  end.

Definition walk_from (st : walk_state) (cuts : list Timestamp) : walk_state :=
  fold_left cycle_step cuts st.

(** Every cycle start the loop finds, before the final [cycles[-n:]]. *)
Definition detected (fedfunds : Series) : list Timestamp :=
  cycles (walk (cut_months fedfunds)).

(** ** The detector as the specification words it *)

(** Each observation paired with its successor. *)
Definition adjacent (s : Series) : list ((Timestamp * fval) * (Timestamp * fval)) :=
  combine s (tl s).

(** The month-over-month difference of a pair is strictly below the drop
    threshold. *)
Definition is_cut (pr : (Timestamp * fval) * (Timestamp * fval)) : bool :=
  flt (fsub (snd (snd pr)) (snd (fst pr))) drop_threshold.

(** The months whose difference to the month before is a cut, in series
    order; the first observation has no difference and never appears. *)
Definition cut_months_spec (s : Series) : list Timestamp :=
  map (fun pr => fst (snd pr)) (filter is_cut (adjacent s)).

(** Position [k] is the first cut month, or lies more than 180 days after
    the cut month at position [k - 1]; the gap is counted in whole days. *)
Definition opens_cycle (cuts : list Timestamp) (k : nat) : Prop :=
  k = O \/
  exists p dt, nth_error cuts (k - 1) = Some p /\ nth_error cuts k = Some dt
               /\ min_spacing_days < days (dt - p).

(** Every member of [run] lies at most 180 days after its predecessor,
    the first one after [p]. *)
Fixpoint close_run (p : Timestamp) (run : list Timestamp) : bool :=
  match run with
  | [] => true
  | dt :: rest => (days (dt - p) <=? min_spacing_days) && close_run dt rest
  end.

(** ** The lag metric as the specification words it *)

(** The last value of a list that is not missing; NaN when there is none. *)
Definition last_valid (vals : list fval) : fval :=
  fold_left (fun acc v => if isna v then acc else v) vals NaN.

(** The last observed value at or before [dt]. *)
Definition last_observed (s : Series) (dt : Timestamp) : fval :=
  last_valid (values (filter (fun row => fst row <=? dt) s)).

(** The value [v] lies at least 25 basis points below the base [b]. *)
Definition declined (b v : Q) : Prop := (v - b <= - (25 # 100))%Q.

(** Offset [j] holds the first value of [vals] that declined against [b]. *)
Definition first_decline (b : Q) (vals : list fval) (j : nat) : Prop :=
  (exists v, nth_error vals j = Some (Some v) /\ declined b v)
  /\ forall i v, (i < j)%nat -> nth_error vals i = Some (Some v) -> ~ declined b v.

Fixpoint count_na (vals : list fval) : nat :=
  match vals with
  | [] => O
  | v :: rest => ((if isna v then 1 else 0) + count_na rest)%nat
  end.

(** Strictly increasing timestamps: the invariant of a [TimeSeries]. *)
Fixpoint strictly_increasing (idx : list Timestamp) : bool :=
  match idx with
  | [] => true
  | t :: rest =>
      match rest with
      | [] => true
      | u :: _ => (t <? u) && strictly_increasing rest
      end
  end.

(** ** The growth comparison as the specification words it *)

(** "mean(pre) is exactly zero" *)
Definition mean_is_zero (m : fval) : bool :=
  match m with
  | Some x => Qeq_bool x 0
  | None => false
  end.

(** [(mean(post) - mean(pre)) / mean(pre) * 100] *)
Definition growth_formula (mpre mpost : fval) : fval :=
  fmul (lift2 Qdiv (fsub mpost mpre) mpre) (Some 100%Q).

(** ** Sample data *)

Module Sample.

(** The first day of the month [k] months after January of year 0. *)
Definition month_start (k : Z) : Timestamp := ymd (k / 12) (k mod 12 + 1) 1.

(** A gap-free monthly series starting at month number [k]. *)
Fixpoint monthly (k : Z) (vals : list fval) : Series :=
  match vals with
  | [] => []
  | v :: rest => (month_start k, v) :: monthly (k + 1) rest
  end.

Definition dec (n : Z) : fval := Some (n # 100)%Q.

(** January to December 2001: cuts in February and March, then again in
    October. *)
Definition rates_2001 : Series :=
  monthly (2001 * 12)
    [dec 600; dec 550; dec 500; dec 500; dec 500; dec 500;
     dec 500; dec 500; dec 500; dec 450; dec 450; dec 450].

Definition feb_2001 : Timestamp := ymd 2001 2 1.
Definition mar_2001 : Timestamp := ymd 2001 3 1.
Definition oct_2001 : Timestamp := ymd 2001 10 1.

(** A flat policy rate: no month-over-month difference at all. *)
Definition rates_flat : Series :=
  monthly (2001 * 12) [dec 500; dec 500; dec 500; dec 500].

(** Rows out of chronological order: [asof] refuses such a series. *)
Definition unsorted_series : Series :=
  [(ymd 2001 3 1, dec 700); (ymd 2001 1 1, dec 710)].

(** A lending rate that follows with a lag: 6.5, 6.4, 6.3, 6.2. *)
Definition lending_2001 : Series :=
  monthly (2001 * 12) [dec 650; dec 640; dec 630; dec 620].

(** The same months with the February observation missing. *)
Definition lending_gap : Series :=
  monthly (2001 * 12) [dec 650; NaN; dec 630; dec 620].

(** Spending of 100 up to February 2001 and of 110 afterwards. *)
Definition spending_2001 : Series :=
  monthly (2001 * 12) [Some 100%Q; Some 100%Q; Some 110%Q; Some 110%Q].

(** A baseline that averages to zero, followed by real data. *)
Definition zero_baseline : Series :=
  monthly (2001 * 12) [Some (-5)%Q; Some 5%Q; Some 110%Q; Some 110%Q].

Definition jan_2001 : Timestamp := ymd 2001 1 1.
Definition mid_feb_2001 : Timestamp := ymd 2001 2 15.

End Sample.

(** Distinct and more than the minimum spacing apart. *)
Definition spaced (a b : Timestamp) : Prop :=
  a < b /\ min_spacing_days < days (b - a).

(** * Further code of [app.py] *)

(** ** [fetch] (lines 48-56) *)

(** The month a timestamp falls in, counted from January of year 0. *)
Definition month_number (ts : Timestamp) : Z :=
  let '(y, m, _) := civil_from_days (ts / ns_per_day) in y * 12 + (m - 1).

(** Midnight of the first day of month [k]. *)
Definition month_begin (k : Z) : Timestamp := ymd (k / 12) (k mod 12 + 1) 1.

(** The row lies in the bin of month [k], closed on the left. *)
Definition in_month (k : Z) (row : Timestamp * fval) : bool :=
  (month_begin k <=? fst row) && (fst row <? month_begin (k + 1)).

(** [count] monthly bins from month [k] on, each labelled by its first day
    and holding the mean of its rows (NaN for a bin without a value). *)
Fixpoint month_bins (k : Z) (count : nat) (raw : Series) : Series :=
  match count with
  | O => []
  | S c => (month_begin k, mean (filter (in_month k) raw))
             :: month_bins (k + 1) c raw
  end.

(** [raw.resample("MS").mean()]: one bin per month from the month of the
    earliest timestamp to the month of the latest. *)
Definition resample_MS_mean (raw : Series) : Series :=
  match raw with
  | [] => []
  | (t0, _) :: rest =>
      let lo := month_number (fold_left Z.min (index rest) t0) in
      let hi := month_number (fold_left Z.max (index rest) t0) in
      month_bins lo (Z.to_nat (hi - lo + 1)) raw
  end.

(** [s.ffill()]: a missing value takes the last value before it, if any. *)
Fixpoint ffill_from (last : fval) (s : Series) : Series :=
  match s with
  | [] => []
  | (t, v) :: rest =>
      let v' := if isna v then last else v in
      (t, v') :: ffill_from v' rest
  end.

Definition ffill (s : Series) : Series := ffill_from NaN s.

(** [fetch(series_id)] on the outcome [raw] of [get_series]: the cleaned
    monthly series, or the empty series and a warning when the call raised. *)
Definition fetch (series_id : string) (raw : result Series)
  : Series * option string :=
  match raw with
  | Ok r => (dropna (ffill (resample_MS_mean r)), None)
  | Raise exc =>
      ([], Some ("Could not load **" ++ series_id ++ "**: " ++ exc)%string)
  end.

(** ** [add_cut_overlays] (lines 73-100) *)

Definition CYCLE_COLORS : list string :=
  ["#ff7b72"%string; "#d2a8ff"%string; "#79c0ff"%string].

Definition pad2 (z : Z) : string :=
  if z <? 10 then ("0" ++ show_Z z)%string else show_Z z.

Definition pad4 (z : Z) : string :=
  if z <? 10 then ("000" ++ show_Z z)%string
  else if z <? 100 then ("00" ++ show_Z z)%string
  else if z <? 1000 then ("0" ++ show_Z z)%string
  else show_Z z.

(** [ts.strftime("%Y-%m-%d")] *)
Definition strftime_Y_m_d (ts : Timestamp) : string :=
  let '(y, m, d) := civil_from_days (ts / ns_per_day) in
  (pad4 y ++ "-" ++ pad2 m ++ "-" ++ pad2 d)%string.

(** What [fig.add_vrect] and [fig.add_vline] are called with; opacity,
    layer, line width and dash are the same constants in every call. *)
Inductive shape : Type :=
| Vrect (x0 x1 fillcolor : string) (rc : option (Z * option Z))
| Vline (x color : string) (annotation_text : option string)
        (rc : option (Z * option Z)).

(** The body of [for i, dt in enumerate(cut_dates)], counting from [i]. *)
Fixpoint overlay_shapes (i : nat) (cut_dates : list Timestamp)
    (window_months : Z) (rc : option (Z * option Z)) (annotate : bool)
  : list shape :=
  match cut_dates with
  | [] => []
  | dt :: rest =>
      let color := nth (Nat.modulo i (List.length CYCLE_COLORS)) CYCLE_COLORS
                       ""%string in
      let end_dt := add_months dt window_months in
      let x0_str := strftime_Y_m_d dt in
      let x1_str := strftime_Y_m_d end_dt in
      Vrect x0_str x1_str color rc
        :: Vline x0_str color
             (if annotate
              then Some ("Cut " ++ show_nat (i + 1) ++ " ("
                           ++ strftime_b_Y dt ++ ")")%string
              else None)
             rc
        :: overlay_shapes (S i) rest window_months rc annotate
  end.

(** [add_cut_overlays(fig, cut_dates, window_months, row, col, annotate)];
    the figure is the list of shapes drawn so far. *)
Definition add_cut_overlays (fig : list shape) (cut_dates : list Timestamp)
    (window_months : Z) (row col : option Z) (annotate : bool) : list shape :=
  let rc := match row with
            | Some r => Some (r, col)
            | None => None
            end in
  fig ++ overlay_shapes O cut_dates window_months rc annotate.

(** ** The tables (lines 185-190 and 317-322) *)

Definition same_cell (a b : table_row) : bool :=
  String.eqb (row_cycle a) (row_cycle b) && String.eqb (row_series a) (row_series b).

Fixpoint duplicate_cell (rows : list table_row) : bool :=
  match rows with
  | [] => false
  | r :: rest => existsb (same_cell r) rest || duplicate_cell rest
  end.

(** [pd.DataFrame(rows).pivot(index="Cycle", columns="Series", values=...)]:
    without rows there is no column to pivot on, and two rows for one cell
    cannot be reshaped; otherwise every row becomes a cell. The order pandas
    gives the labels is not represented. *)
Definition pivot (rows : list table_row) : result (list table_row) :=
  match rows with
  | [] => Raise "KeyError: 'Cycle'"
  | _ :: _ =>
      if duplicate_cell rows
      then Raise "Index contains duplicate entries, cannot reshape"
      else Ok rows
  end.

(** [if rows: st.dataframe(pd.DataFrame(rows).pivot(...))] *)
Definition show_table (rows : list table_row) : result (option (list table_row)) :=
  match rows with
  | [] => Ok None
  | _ :: _ => t <- pivot rows ;; Ok (Some t)
  end.

(** ** Definitions for the further statements *)

(** The month numbers [k], [k + 1], ... ([count] of them). *)
Fixpoint months_from (k : Z) (count : nat) : list Z :=
  match count with
  | O => []
  | S c => k :: months_from (k + 1) c
  end.

(** The names of the series the table loops do not skip. *)
Definition loaded_names (named : list (string * Series)) : list string :=
  map fst (filter (fun p => negb (empty (snd p))) named).

(** The cell a row fills. *)
Definition cell (r : table_row) : string * string := (row_cycle r, row_series r).

Definition shape_color (s : shape) : string :=
  match s with
  | Vrect _ _ fillcolor _ => fillcolor
  | Vline _ color _ _ => color
  end.

(** "YYYY-MM-01" for month number [k]. *)
Definition first_of_month_text (k : Z) : string :=
  (pad4 (k / 12) ++ "-" ++ pad2 (k mod 12 + 1) ++ "-01")%string.

(** ** Further sample data *)

Module Cases.

(** Weekly observations with gaps: nothing in February 2001, missing
    values at both ends. *)
Definition weekly_raw : Series :=
  [(ymd 2001 1 4, NaN); (ymd 2001 1 11, Some 7%Q); (ymd 2001 1 18, Some 8%Q);
   (ymd 2001 3 1, Some 6%Q); (ymd 2001 3 31, Some 5%Q); (ymd 2001 5 15, NaN)].

(** A cut in February and a cut in October 2001, nothing in between. *)
Definition rates_two_cuts : Series :=
  Sample.monthly (2001 * 12)
    [Sample.dec 600; Sample.dec 550; Sample.dec 550; Sample.dec 550;
     Sample.dec 550; Sample.dec 550; Sample.dec 550; Sample.dec 550;
     Sample.dec 550; Sample.dec 500].

Definition lending_named : list (string * Series) :=
  [("Mortgage (MORTGAGE30US)"%string, Sample.lending_2001);
   ("Prime (DPRIME)"%string, Sample.lending_gap)].

End Cases.

(** * Proofs *)

(** ** The embedding on concrete inputs *)

Example epoch_is_1970 : civil_from_days 0 = (1970, 1, 1).
Proof. reflexivity. Qed.

Example leap_day_is_clipped :
  add_months (ymd 2008 2 29) 12 = ymd 2009 2 28
  /\ add_months (ymd 2001 3 31) (- 1) = ymd 2001 2 28.
Proof. split; vm_compute; reflexivity. Qed.

(** Every day from 1990 to 2030 converts to a valid civil date and back. *)
Example civil_round_trip_1990_2030 :
  forallb (fun z => let '(y, m, d) := civil_from_days z in
                    (days_from_civil y m d =? z)
                    && (1 <=? m) && (m <=? 12)
                    && (1 <=? d) && (d <=? days_in_month y m))
          (map (fun k => days_from_civil 1990 1 1 + Z.of_nat k)
               (seq 0 (Z.to_nat 14975)))
  = true.
Proof. vm_compute. reflexivity. Qed.

(** On the first of a month, twelve months forth or back is the same month
    of the next or the previous year (1990 to 2030). *)
Example month_start_shift_1990_2030 :
  forallb (fun k => (add_months (Sample.month_start k) 12
                     =? Sample.month_start (k + 12))
                    && (add_months (Sample.month_start k) (- 12)
                        =? Sample.month_start (k - 12)))
          (map (fun k => 1990 * 12 + Z.of_nat k) (seq 0 492))
  = true.
Proof. vm_compute. reflexivity. Qed.

Example cycle_label_aug_2019 :
  cycle_label 0 (ymd 2019 8 1) = "Cycle 1  (Aug 2019)"%string.
Proof. vm_compute. reflexivity. Qed.

Example slice_from_cases :
  slice_from [1; 2; 3; 4] (- 3) = [2; 3; 4]
  /\ slice_from [1; 2] (- 3) = [1; 2]
  /\ slice_from [1; 2] (- 0) = [1; 2]
  /\ slice_from [1; 2; 3] 1 = [2; 3].
Proof. repeat split. Qed.

Example cut_months_2001 :
  cut_months Sample.rates_2001
  = [Sample.feb_2001; Sample.mar_2001; Sample.oct_2001].
Proof. vm_compute. reflexivity. Qed.

Example find_cut_cycles_2001 :
  find_cut_cycles Sample.rates_2001 3 = [Sample.feb_2001; Sample.oct_2001]
  /\ find_cut_cycles Sample.rates_2001 1 = [Sample.oct_2001].
Proof. split; vm_compute; reflexivity. Qed.

(** Five months falling by 0.1, 0.1, 0.6 and 0.1: each of the last four
    months is a cut month, and the cycle starts in February. *)
Example find_cut_cycles_steady_fall :
  let s := Sample.monthly (2001 * 12)
             [Sample.dec 500; Sample.dec 490; Sample.dec 480;
              Sample.dec 420; Sample.dec 410] in
  cut_months s = [ymd 2001 2 1; ymd 2001 3 1; ymd 2001 4 1; ymd 2001 5 1]
  /\ find_cut_cycles s 3 = [ymd 2001 2 1].
Proof. split; vm_compute; reflexivity. Qed.

Example lag_sentinels :
  pass_through_lag Sample.lending_2001 (ymd 2000 6 1) = Ok LagNA
  /\ pass_through_lag Sample.lending_2001 (ymd 2001 3 1) = Ok LagExceeds
  /\ pass_through_lag Sample.unsorted_series (ymd 2001 3 1)
     = Raise "asof requires a sorted index"
  /\ render_lag (LagMonths 3) = "3 mo"%string.
Proof. repeat split; vm_compute; reflexivity. Qed.

Example format_pct_cases :
  format_pct (Some (-25 # 100)%Q) = "-0.2%"%string
  /\ format_pct (Some (1234 # 100)%Q) = "+12.3%"%string
  /\ format_pct NaN = "+nan%"%string.
Proof. repeat split; vm_compute; reflexivity. Qed.

Example dashboard_renders :
  dashboard Sample.rates_2001 Sample.lending_2001 Sample.lending_gap
            Sample.spending_2001 Sample.zero_baseline
  = Ok (Rendered
          [ TableRow "Cycle 1  (Feb 2001)" "Mortgage (MORTGAGE30US)" ">24 mo";
            TableRow "Cycle 1  (Feb 2001)" "Prime (DPRIME)" "2 mo";
            TableRow "Cycle 2  (Oct 2001)" "Mortgage (MORTGAGE30US)" ">24 mo";
            TableRow "Cycle 2  (Oct 2001)" "Prime (DPRIME)" ">24 mo" ]
          [ TableRow "Cycle 1  (Feb 2001)" "RSXFS" "+10.0%" ]).
Proof. vm_compute. reflexivity. Qed.

(** With cycles detected the lag loop runs, and an unsorted comparison
    series makes it raise. *)
Example dashboard_raises_on_unsorted :
  dashboard Sample.rates_2001 Sample.unsorted_series Sample.lending_gap
            Sample.spending_2001 Sample.zero_baseline
  = Raise "asof requires a sorted index".
Proof. vm_compute. reflexivity. Qed.

(** ** The loop of [find_cut_cycles] *)

Lemma walk_from_cycles (cuts : list Timestamp) (st : walk_state) :
  cycles (walk_from st cuts) = cycles st ++ starts_from (prev st) cuts.
Proof.
  revert st; induction cuts as [|dt rest IH]; intros st.
  - simpl. now rewrite app_nil_r.
  - change (walk_from st (dt :: rest)) with (walk_from (cycle_step st dt) rest).
    rewrite IH. unfold cycle_step; simpl.
    destruct (starts_cycle (prev st) dt); simpl; [|reflexivity].
    now rewrite <- app_assoc.
Qed.

Lemma walk_cycles (cuts : list Timestamp) :
  cycles (walk cuts) = starts_from None cuts.
Proof. exact (walk_from_cycles cuts {| cycles := []; prev := None |}). Qed.

Lemma last_cons (A : Type) (x : A) (l : list A) (d : A) :
  last (x :: l) d = last l x.
Proof.
  revert x d; induction l as [|y l IH]; intros x d; [reflexivity|].
  change (last (x :: y :: l) d) with (last (y :: l) d).
  now rewrite (IH y d), (IH y x).
Qed.

Lemma walk_from_prev (cuts : list Timestamp) (st : walk_state) :
  prev (walk_from st cuts) = last (map Some cuts) (prev st).
Proof.
  revert st; induction cuts as [|dt rest IH]; intros st; [reflexivity|].
  change (walk_from st (dt :: rest)) with (walk_from (cycle_step st dt) rest).
  rewrite IH. simpl map. now rewrite last_cons.
Qed.

Lemma starts_from_app (pre post : list Timestamp) (p : option Timestamp) :
  starts_from p (pre ++ post)
  = starts_from p pre ++ starts_from (last (map Some pre) p) post.
Proof.
  revert p; induction pre as [|dt rest IH]; intros p; [reflexivity|].
  change (starts_from p ((dt :: rest) ++ post))
    with (if starts_cycle p dt then dt :: starts_from (Some dt) (rest ++ post)
          else starts_from (Some dt) (rest ++ post)).
  change (map Some (dt :: rest)) with (Some dt :: map Some rest).
  rewrite IH, last_cons. simpl.
  destruct (starts_cycle p dt); reflexivity.
Qed.


Lemma firstn_S_nth_error (A : Type) (l : list A) (k : nat) (x : A) :
  nth_error l k = Some x -> firstn (S k) l = firstn k l ++ [x].
Proof.
  revert k; induction l as [|y l IH]; intros [|k] H; simpl in H; try discriminate.
  - now inversion H.
  - change (firstn (S (S k)) (y :: l)) with (y :: firstn (S k) l).
    now rewrite (IH _ H).
Qed.

Lemma last_firstn_S (cuts : list Timestamp) (j : nat) (p : Timestamp)
    (d : option Timestamp) :
  nth_error cuts j = Some p -> last (map Some (firstn (S j) cuts)) d = Some p.
Proof.
  intros H. rewrite (firstn_S_nth_error _ _ H), map_app. apply last_last.
Qed.

Lemma starts_cycle_gap (p dt : Timestamp) :
  starts_cycle (Some p) dt = true <-> min_spacing_days < days (dt - p).
Proof. unfold starts_cycle. apply Z.ltb_lt. Qed.

(** One more iteration of the loop appends the cut month or leaves the list
    alone, according to the state the iterations before left in [prev]. *)
Lemma walk_step (cuts : list Timestamp) (k : nat) (dt : Timestamp) :
  nth_error cuts k = Some dt ->
  cycles (walk (firstn (S k) cuts))
  = cycles (walk (firstn k cuts))
    ++ (if starts_cycle (last (map Some (firstn k cuts)) None) dt
        then [dt] else []).
Proof.
  intros H. rewrite (firstn_S_nth_error _ _ H), !walk_cycles, starts_from_app.
  simpl. now destruct (starts_cycle _ dt).
Qed.

Lemma prev_opens_cycle (cuts : list Timestamp) (k : nat) (dt : Timestamp) :
  nth_error cuts k = Some dt ->
  starts_cycle (last (map Some (firstn k cuts)) None) dt = true
  <-> opens_cycle cuts k.
Proof.
  intros H. destruct k as [|j].
  - simpl. split; [now left | reflexivity].
  - assert (Hj : exists p, nth_error cuts j = Some p).
    { destruct (nth_error cuts j) as [p|] eqn:E; [now exists p|].
      apply nth_error_None in E.
      assert (nth_error cuts (S j) <> None) by congruence.
      apply nth_error_Some in H0. lia. }
    destruct Hj as [p Hp]. rewrite (last_firstn_S _ _ None Hp), starts_cycle_gap.
    unfold opens_cycle. replace (S j - 1)%nat with j by lia. split.
    + intros G. right. now exists p, dt.
    + intros [E | (p' & dt' & Hp' & Hdt' & G)]; [discriminate|].
      congruence.
Qed.

(** A close run after [p] opens no cycle. *)
Lemma starts_from_close_run (run : list Timestamp) (p : Timestamp) :
  close_run p run = true -> starts_from (Some p) run = [].
Proof.
  revert p; induction run as [|dt rest IH]; intros p H; [reflexivity|].
  simpl in H. apply andb_true_iff in H as [Hgap Hrest]. simpl.
  apply Z.leb_le in Hgap.
  destruct (min_spacing_days <? days (dt - p)) eqn:E.
  - apply Z.ltb_lt in E. lia.
  - now apply IH.
Qed.

(** ** Cut months *)

Lemma cut_filter_from (s : Series) (t0 : Timestamp) (v0 : fval) :
  index (filter (fun row => flt (snd row) drop_threshold) (dropna (diff_from v0 s)))
  = map (fun pr => fst (snd pr)) (filter is_cut (combine ((t0, v0) :: s) s)).
Proof.
  revert t0 v0; induction s as [|[t v] rest IH]; intros t0 v0; [reflexivity|].
  change (diff_from v0 ((t, v) :: rest)) with ((t, fsub v v0) :: diff_from v rest).
  change (combine ((t0, v0) :: (t, v) :: rest) ((t, v) :: rest))
    with (((t0, v0), (t, v)) :: combine ((t, v) :: rest) rest).
  unfold dropna, index in *. cbn [filter]. unfold is_cut at 1. cbn [snd fst].
  destruct (fsub v v0) as [d|]; cbn [isna negb filter snd].
  - destruct (flt (Some d) drop_threshold); cbn [map fst snd];
      now rewrite (IH t v).
  - apply IH.
Qed.

Lemma cut_months_refines (s : Series) : cut_months s = cut_months_spec s.
Proof.
  destruct s as [|[t v] rest]; [reflexivity|].
  unfold cut_months, cut_months_spec, adjacent. simpl diff. simpl tl.
  unfold dropna. simpl filter. apply (cut_filter_from rest t v).
Qed.

Lemma slice_from_nil (A : Type) (k : Z) : slice_from (@nil A) k = [].
Proof. unfold slice_from. now rewrite skipn_nil. Qed.

Lemma find_cut_cycles_detected (s : Series) (n : Z) :
  find_cut_cycles s n = slice_from (detected s) (- n).
Proof.
  unfold find_cut_cycles, detected.
  destruct (cut_months s) as [|c cs]; [|reflexivity].
  simpl. now rewrite slice_from_nil.
Qed.

Lemma last_map_Some (l : list Timestamp) (d : Timestamp) :
  last (map Some l) (Some d) = Some (last l d).
Proof.
  revert d; induction l as [|x l IH]; intros d; [reflexivity|].
  change (map Some (x :: l)) with (Some x :: map Some l).
  now rewrite !last_cons.
Qed.

(** A run that opens a cycle adds its first month and nothing else. *)
Lemma starts_from_run (p : option Timestamp) (r0 : Timestamp)
    (rest post : list Timestamp) :
  starts_cycle p r0 = true ->
  close_run r0 rest = true ->
  starts_from p ((r0 :: rest) ++ post)
  = r0 :: starts_from (Some (last rest r0)) post.
Proof.
  intros Hopen Hrun. rewrite starts_from_app.
  change (map Some (r0 :: rest)) with (Some r0 :: map Some rest).
  rewrite last_cons, last_map_Some. simpl starts_from at 1.
  now rewrite Hopen, (starts_from_close_run _ _ Hrun).
Qed.

(** Between two midnights the whole-day count of [Timedelta.days] exceeds
    180 exactly when the gap itself exceeds 180 days. *)
Lemma days_gap_midnight (p dt : Timestamp) :
  p mod ns_per_day = 0 -> dt mod ns_per_day = 0 ->
  (min_spacing_days < days (dt - p)
   <-> min_spacing_days * ns_per_day < dt - p).
Proof.
  intros Hp Hdt. unfold days.
  assert (Hd : (dt - p) mod ns_per_day = 0).
  { rewrite Zminus_mod, Hp, Hdt. reflexivity. }
  apply Z_div_exact_full_2 in Hd; [|discriminate].
  set (q := (dt - p) / ns_per_day) in *. rewrite Hd.
  unfold ns_per_day, min_spacing_days. lia.
Qed.

(** C1. The cut months are the timestamps of the observations, the first
    one excepted, whose difference to the observation before is strictly
    below -0.05, in series order. The loop appends the cut month at position
    [k] exactly when [k] is the first position or the month lies more than
    180 days after the cut month at position [k - 1]. Hence a run of cut
    months, each at most 180 days after its predecessor, whose first member
    opens a cycle, contributes that first member and nothing else. Gaps are
    counted in whole days, as [(dt - prev).days] does; between midnights,
    which is what a monthly index holds, that is the gap itself. *)
Theorem find_cut_cycles_walk (fedfunds : Series) :
  let cuts := cut_months fedfunds in
  cuts = cut_months_spec fedfunds
  /\ (forall n, find_cut_cycles fedfunds n = slice_from (cycles (walk cuts)) (- n))
  /\ (forall k dt,
        nth_error cuts k = Some dt ->
        (opens_cycle cuts k
         /\ cycles (walk (firstn (S k) cuts)) = cycles (walk (firstn k cuts)) ++ [dt])
        \/ (~ opens_cycle cuts k
            /\ cycles (walk (firstn (S k) cuts)) = cycles (walk (firstn k cuts))))
  /\ (forall pre r0 rest post,
        cuts = pre ++ (r0 :: rest) ++ post ->
        opens_cycle cuts (List.length pre) ->
        close_run r0 rest = true ->
        cycles (walk (pre ++ r0 :: rest)) = cycles (walk pre) ++ [r0]
        /\ cycles (walk cuts)
           = cycles (walk pre)
             ++ r0 :: cycles (walk_from {| cycles := []; prev := Some (last rest r0) |}
                                        post))
  /\ (forall p dt,
        p mod ns_per_day = 0 -> dt mod ns_per_day = 0 ->
        (starts_cycle (Some p) dt = true
         <-> min_spacing_days * ns_per_day < dt - p)).
Proof.
  intros cuts. split; [apply cut_months_refines|].
  split; [intros n; apply find_cut_cycles_detected|].
  split; [|split;
           [|intros p dt Hp Hdt;
             now rewrite starts_cycle_gap, (days_gap_midnight _ _ Hp Hdt)]].
  - intros k dt H. rewrite (walk_step _ _ H).
    pose proof (prev_opens_cycle _ _ H) as Hiff.
    destruct (starts_cycle _ dt).
    + left. split; [now apply Hiff | reflexivity].
    + right. split; [|now rewrite app_nil_r].
      intros Ho. apply Hiff in Ho. discriminate.
  - intros pre r0 rest post Hcuts Hopen Hrun.
    assert (Hnth : nth_error cuts (List.length pre) = Some r0).
    { rewrite Hcuts, nth_error_app2 by lia. now rewrite Nat.sub_diag. }
    apply (prev_opens_cycle _ _ Hnth) in Hopen.
    rewrite Hcuts, firstn_app, Nat.sub_diag, firstn_all, firstn_O, app_nil_r in Hopen.
    split.
    + rewrite !walk_cycles, starts_from_app. f_equal.
      pose proof (starts_from_run _ _ _ [] Hopen Hrun) as E.
      now rewrite app_nil_r in E.
    + rewrite Hcuts, !walk_cycles, walk_from_cycles. cbn [cycles prev].
      now rewrite (starts_from_app pre), (starts_from_run _ _ _ post Hopen Hrun).
Qed.

Lemma find_cut_cycles_walk_witness :
  (cut_months Sample.rates_2001
   = [] ++ (Sample.feb_2001 :: [Sample.mar_2001]) ++ [Sample.oct_2001]
   /\ opens_cycle (cut_months Sample.rates_2001) (List.length (@nil Timestamp))
   /\ close_run Sample.feb_2001 [Sample.mar_2001] = true
   /\ cycles (walk (cut_months Sample.rates_2001))
      = [Sample.feb_2001; Sample.oct_2001])
  /\ (nth_error (cut_months Sample.rates_2001) 2 = Some Sample.oct_2001
      /\ opens_cycle (cut_months Sample.rates_2001) 2)
  /\ (Sample.mar_2001 mod ns_per_day = 0
      /\ Sample.oct_2001 mod ns_per_day = 0
      /\ starts_cycle (Some Sample.mar_2001) Sample.oct_2001 = true).
Proof.
  assert (Hcuts : cut_months Sample.rates_2001
                  = [] ++ (Sample.feb_2001 :: [Sample.mar_2001])
                       ++ [Sample.oct_2001]) by reflexivity.
  assert (Hopen : opens_cycle (cut_months Sample.rates_2001)
                              (List.length (@nil Timestamp))) by (left; reflexivity).
  assert (Hrun : close_run Sample.feb_2001 [Sample.mar_2001] = true) by reflexivity.
  assert (Hnth : nth_error (cut_months Sample.rates_2001) 2 = Some Sample.oct_2001)
    by reflexivity.
  assert (Hmar : Sample.mar_2001 mod ns_per_day = 0) by reflexivity.
  assert (Hoct : Sample.oct_2001 mod ns_per_day = 0) by reflexivity.
  destruct (find_cut_cycles_walk Sample.rates_2001)
    as (_ & _ & Hstep & Hruns & Hmid).
  split; [|split].
  - split; [exact Hcuts | split; [exact Hopen | split; [exact Hrun |]]].
    destruct (Hruns _ _ _ _ Hcuts Hopen Hrun) as [_ E].
    rewrite E. reflexivity.
  - split; [exact Hnth|].
    destruct (Hstep _ _ Hnth) as [[Ho _] | [_ E]]; [exact Ho|].
    vm_compute in E. discriminate E.
  - split; [exact Hmar | split; [exact Hoct|]].
    apply (Hmid _ _ Hmar Hoct). reflexivity.
Defined.

(** ** Order and spacing of the detected cycle starts *)

Lemma monotonic_sorted (idx : list Timestamp) :
  is_monotonic_increasing idx = true -> StronglySorted Z.le idx.
Proof.
  intros H. apply Sorted_StronglySorted; [exact Z.le_trans|].
  induction idx as [|t rest IH]; [constructor|].
  destruct rest as [|u rest']; [repeat constructor|].
  change (is_monotonic_increasing (t :: u :: rest'))
    with ((t <=? u) && is_monotonic_increasing (u :: rest')) in H.
  apply andb_true_iff in H as [Htu Hrest].
  constructor; [now apply IH|]. constructor. now apply Z.leb_le.
Qed.

Lemma index_filter_sorted (R : Timestamp -> Timestamp -> Prop)
    (f : Timestamp * fval -> bool) (s : Series) :
  StronglySorted R (index s) -> StronglySorted R (index (filter f s)).
Proof.
  unfold index. induction s as [|row rest IH]; intros H; [constructor|].
  simpl in H. apply StronglySorted_inv in H as [Hrest Hall].
  simpl. destruct (f row); [|now apply IH].
  simpl. constructor; [now apply IH|].
  rewrite Forall_forall in *. intros t Ht. apply Hall.
  apply in_map_iff in Ht as (r & <- & Hr). apply filter_In in Hr as [Hr _].
  now apply in_map.
Qed.

Lemma index_diff_from (s : Series) (v0 : fval) : index (diff_from v0 s) = index s.
Proof.
  revert v0; induction s as [|[t v] rest IH]; intros v0; [reflexivity|].
  simpl. now rewrite IH.
Qed.

Lemma index_diff (s : Series) : index (diff s) = index s.
Proof.
  destruct s as [|[t v] rest]; [reflexivity|]. simpl. now rewrite index_diff_from.
Qed.

Lemma cut_months_sorted (s : Series) :
  is_monotonic_increasing (index s) = true -> StronglySorted Z.le (cut_months s).
Proof.
  intros H. unfold cut_months, dropna.
  do 2 apply index_filter_sorted. rewrite index_diff. now apply monotonic_sorted.
Qed.

Lemma days_mono (a b : Timedelta) : a <= b -> days a <= days b.
Proof. intros H. unfold days, ns_per_day. now apply Z.div_le_mono. Qed.

Lemma days_positive (a : Timedelta) : min_spacing_days < days a -> 0 < a.
Proof.
  intros H. destruct (Z_lt_le_dec 0 a) as [|Hle]; [assumption|].
  apply days_mono in Hle. unfold min_spacing_days in H.
  change (days 0) with 0 in Hle. lia.
Qed.

(** While the loop runs, every cycle start it adds lies more than the
    minimum spacing after any month [c] at or before [prev]. *)
Lemma starts_from_gap (cuts : list Timestamp) (p c : Timestamp) :
  c <= p -> StronglySorted Z.le (p :: cuts) ->
  Forall (spaced c) (starts_from (Some p) cuts).
Proof.
  revert p; induction cuts as [|dt rest IH]; intros p Hcp Hs; [constructor|].
  apply StronglySorted_inv in Hs as [Hrest Hp].
  assert (Hpdt : p <= dt) by (inversion Hp; assumption).
  assert (Htail : Forall (spaced c) (starts_from (Some dt) rest))
    by (apply IH; [lia | assumption]).
  simpl. destruct (min_spacing_days <? days (dt - p)) eqn:E; [|assumption].
  constructor; [|assumption]. apply Z.ltb_lt in E.
  assert (G : min_spacing_days < days (dt - c)).
  { eapply Z.lt_le_trans; [exact E|]. apply days_mono. lia. }
  split; [|assumption]. apply days_positive in G. lia.
Qed.

Lemma starts_from_spaced (cuts : list Timestamp) (p : option Timestamp) :
  StronglySorted Z.le cuts -> StronglySorted spaced (starts_from p cuts).
Proof.
  revert p; induction cuts as [|dt rest IH]; intros p Hs; [constructor|].
  pose proof Hs as Hs'. apply StronglySorted_inv in Hs' as [Hrest _].
  simpl. destruct (starts_cycle p dt); [|now apply IH].
  constructor; [now apply IH|]. apply starts_from_gap; [lia | assumption].
Qed.

Lemma detected_spaced (s : Series) :
  is_monotonic_increasing (index s) = true -> StronglySorted spaced (detected s).
Proof.
  intros H. unfold detected. rewrite walk_cycles.
  now apply starts_from_spaced, cut_months_sorted.
Qed.

Lemma StronglySorted_skipn (A : Type) (R : A -> A -> Prop) (k : nat) (l : list A) :
  StronglySorted R l -> StronglySorted R (skipn k l).
Proof.
  revert l; induction k as [|k IH]; intros l H; [assumption|].
  destruct l as [|x l]; [constructor|]. simpl.
  apply IH. now apply StronglySorted_inv in H.
Qed.

Lemma StronglySorted_consecutive (A : Type) (R : A -> A -> Prop) (l : list A)
    (i : nat) (a b : A) :
  StronglySorted R l ->
  nth_error l i = Some a -> nth_error l (S i) = Some b -> R a b.
Proof.
  intros H; revert i; induction H as [|x l Hl IH Hx]; intros i Ha Hb.
  - destruct i; discriminate.
  - destruct i as [|i].
    + simpl in Ha, Hb. inversion Ha; subst x.
      rewrite Forall_forall in Hx. apply Hx.
      apply nth_error_In with (n := O). exact Hb.
    + simpl in Ha. change (nth_error (x :: l) (S (S i))) with (nth_error l (S i)) in Hb.
      now apply (IH i).
Qed.

(** C4. For a rate series in chronological order, the dates that
    [find_cut_cycles] returns are strictly increasing and any two of them,
    in particular any two consecutive ones, lie more than 180 days apart. *)
Theorem find_cut_cycles_spaced (fedfunds : Series) (n : Z) :
  is_monotonic_increasing (index fedfunds) = true ->
  StronglySorted spaced (find_cut_cycles fedfunds n)
  /\ (forall i a b,
        nth_error (find_cut_cycles fedfunds n) i = Some a ->
        nth_error (find_cut_cycles fedfunds n) (S i) = Some b ->
        a < b /\ min_spacing_days < days (b - a)).
Proof.
  intros H.
  assert (Hs : StronglySorted spaced (find_cut_cycles fedfunds n)).
  { rewrite find_cut_cycles_detected. unfold slice_from.
    now apply StronglySorted_skipn, detected_spaced. }
  split; [exact Hs|]. intros i a b Ha Hb.
  change (spaced a b). eapply StronglySorted_consecutive; eassumption.
Qed.

Lemma find_cut_cycles_spaced_witness :
  is_monotonic_increasing (index Sample.rates_2001) = true
  /\ StronglySorted spaced (find_cut_cycles Sample.rates_2001 3)
  /\ find_cut_cycles Sample.rates_2001 3 = [Sample.feb_2001; Sample.oct_2001].
Proof.
  split; [reflexivity|]. split; [|reflexivity].
  apply (find_cut_cycles_spaced Sample.rates_2001 3). reflexivity.
Defined.

(** ** The final slice [cycles[-n:]] *)

Lemma slice_last (A : Type) (l : list A) (n : Z) :
  1 <= n -> slice_from l (- n) = skipn (List.length l - Z.to_nat n) l.
Proof.
  intros Hn. unfold slice_from.
  destruct (- n <? 0) eqn:E; [|apply Z.ltb_ge in E; lia].
  f_equal. lia.
Qed.

Lemma StronglySorted_weaken (A : Type) (R R' : A -> A -> Prop) (l : list A) :
  (forall a b, R a b -> R' a b) -> StronglySorted R l -> StronglySorted R' l.
Proof.
  intros Himp H; induction H as [|x l Hl IH Hx]; constructor; [assumption|].
  rewrite Forall_forall in *. auto.
Qed.

Lemma StronglySorted_app_cross (A : Type) (R : A -> A -> Prop) (l1 l2 : list A) :
  StronglySorted R (l1 ++ l2) -> forall a b, In a l1 -> In b l2 -> R a b.
Proof.
  induction l1 as [|x l1 IH]; intros H a b Ha Hb; [contradiction|].
  simpl in H. apply StronglySorted_inv in H as [Hrest Hx].
  destruct Ha as [<- | Ha].
  - rewrite Forall_forall in Hx. apply Hx, in_or_app. now right.
  - now apply IH.
Qed.

(** C5. For [n >= 1], [find_cut_cycles] returns the last [n] of the cycle
    starts the loop detected, or all of them when there are at most [n]:
    never more than [n] entries, a suffix of the detected list, and for a
    series in chronological order strictly increasing and later than every
    start that was dropped. *)
Theorem find_cut_cycles_most_recent (fedfunds : Series) (n : Z) :
  1 <= n ->
  let all := detected fedfunds in
  let out := find_cut_cycles fedfunds n in
  Z.of_nat (List.length out) = Z.min n (Z.of_nat (List.length all))
  /\ out = skipn (List.length all - Z.to_nat n) all
  /\ (Z.of_nat (List.length all) <= n -> out = all)
  /\ exists older,
       all = older ++ out
       /\ (is_monotonic_increasing (index fedfunds) = true ->
           StronglySorted Z.lt out
           /\ forall a b, In a older -> In b out -> a < b).
Proof.
  intros Hn all out.
  assert (Hout : out = skipn (List.length all - Z.to_nat n) all).
  { unfold out. rewrite find_cut_cycles_detected. now apply slice_last. }
  split; [rewrite Hout, length_skipn; lia|].
  split; [exact Hout|]. split.
  - intros Hle. rewrite Hout.
    replace (List.length all - Z.to_nat n)%nat with O by lia. reflexivity.
  - exists (firstn (List.length all - Z.to_nat n) all). split.
    + rewrite Hout. symmetry. apply firstn_skipn.
    + intros Hmono.
      assert (Hall : StronglySorted Z.lt all).
      { apply StronglySorted_weaken with (R := spaced); [now intros a b []|].
        now apply detected_spaced. }
      split.
      * rewrite Hout. now apply StronglySorted_skipn.
      * apply StronglySorted_app_cross. rewrite Hout, firstn_skipn. exact Hall.
Qed.

Lemma find_cut_cycles_most_recent_witness :
  1 <= 1
  /\ is_monotonic_increasing (index Sample.rates_2001) = true
  /\ detected Sample.rates_2001 = [Sample.feb_2001; Sample.oct_2001]
  /\ find_cut_cycles Sample.rates_2001 1 = [Sample.oct_2001]
  /\ StronglySorted Z.lt (find_cut_cycles Sample.rates_2001 1).
Proof.
  split; [lia|]. split; [reflexivity|]. split; [reflexivity|]. split; [reflexivity|].
  destruct (@find_cut_cycles_most_recent Sample.rates_2001 1)
    as (_ & _ & _ & older & _ & Hsorted); [lia|].
  apply Hsorted. reflexivity.
Defined.

(** ** No cycles *)

Lemma cut_months_short (s : Series) :
  (List.length s < 2)%nat -> dropna (diff s) = [].
Proof.
  destruct s as [|[t v] [|row rest]]; simpl; intros H; try reflexivity; lia.
Qed.

Lemma cut_months_no_drop (s : Series) :
  Forall (fun row => flt (snd row) drop_threshold = false) (diff s) ->
  cut_months s = [].
Proof.
  intros H. unfold cut_months, dropna.
  assert (E : forall rows,
             Forall (fun row => flt (snd row) drop_threshold = false) rows ->
             filter (fun row : Timestamp * fval => flt (snd row) drop_threshold)
                    (filter (fun row => negb (isna (snd row))) rows) = []).
  { induction 1 as [|row rows Hrow Hrows IH]; [reflexivity|].
    simpl. destruct (negb (isna (snd row))); [|assumption].
    simpl. now rewrite Hrow. }
  now rewrite (E _ H).
Qed.

(** C7. A series of fewer than two observations has no differences and no
    cycles; a series none of whose differences is strictly below the
    threshold has no cycles; and when the detector returns no cycle the run
    stops at the error message, whatever the other series hold: no lag and
    no growth is computed. *)
Theorem no_cycles_terminal :
  (forall s n, (List.length s < 2)%nat ->
               dropna (diff s) = [] /\ find_cut_cycles s n = [])
  /\ (forall s n,
        Forall (fun row => flt (snd row) drop_threshold = false) (diff s) ->
        find_cut_cycles s n = [])
  /\ (forall fedfunds mortgage dprime rsxfs pce,
        find_cut_cycles fedfunds 3 = [] ->
        dashboard fedfunds mortgage dprime rsxfs pce
        = Ok (Stopped no_cycles_message)).
Proof.
  split; [|split].
  - intros s n H. pose proof (cut_months_short s H) as E. split; [exact E|].
    unfold find_cut_cycles, cut_months. now rewrite E.
  - intros s n H. unfold find_cut_cycles. now rewrite (cut_months_no_drop _ H).
  - intros fedfunds mortgage dprime rsxfs pce H. unfold dashboard. now rewrite H.
Qed.

Lemma no_cycles_terminal_witness :
  ((List.length [(Sample.feb_2001, Sample.dec 500)] < 2)%nat
   /\ find_cut_cycles [(Sample.feb_2001, Sample.dec 500)] 3 = [])
  /\ (Forall (fun row => flt (snd row) drop_threshold = false)
             (diff Sample.rates_flat)
      /\ find_cut_cycles Sample.rates_flat 3 = [])
  /\ dashboard Sample.rates_flat Sample.unsorted_series Sample.unsorted_series
               Sample.rates_2001 Sample.rates_2001
     = Ok (Stopped no_cycles_message).
Proof.
  destruct no_cycles_terminal as (Hshort & Hflat & Hstop).
  assert (H1 : (List.length [(Sample.feb_2001, Sample.dec 500)] < 2)%nat)
    by (simpl; lia).
  assert (H2 : Forall (fun row => flt (snd row) drop_threshold = false)
                      (diff Sample.rates_flat))
    by (repeat constructor).
  split; [split; [exact H1 | exact (proj2 (Hshort _ 3 H1))]|].
  split; [split; [exact H2 | exact (Hflat _ 3 H2)]|].
  apply Hstop. exact (Hflat _ 3 H2).
Defined.

(** ** [Series.asof] *)

Lemma last_valid_snoc (vals : list fval) (v : fval) :
  last_valid (vals ++ [v]) = if isna v then last_valid vals else v.
Proof. unfold last_valid. now rewrite fold_left_app. Qed.

Lemma firstn_S_nth (vals : list fval) (loc : nat) :
  (loc < List.length vals)%nat ->
  firstn (S loc) vals = firstn loc vals ++ [nth loc vals NaN].
Proof.
  intros H. apply firstn_S_nth_error.
  destruct (nth_error vals loc) as [x|] eqn:E.
  - now rewrite (nth_error_nth _ _ NaN E).
  - apply nth_error_None in E. lia.
Qed.

Lemma back_to_valid_spec (vals : list fval) (loc : nat) :
  (loc < List.length vals)%nat ->
  back_to_valid vals loc = last_valid (firstn (S loc) vals).
Proof.
  induction loc as [|l IH]; intros H.
  - destruct vals as [|v vals]; [simpl in H; lia|]. simpl.
    unfold last_valid. simpl. now destruct v.
  - rewrite (firstn_S_nth _ H), last_valid_snoc.
    change (back_to_valid vals (S l))
      with (if isna (nth (S l) vals NaN) then back_to_valid vals l
            else nth (S l) vals NaN).
    destruct (isna (nth (S l) vals NaN)); [apply IH; lia | reflexivity].
Qed.

Lemma searchsorted_bound (idx : list Timestamp) (w : Timestamp) :
  (searchsorted_right idx w <= List.length idx)%nat.
Proof.
  induction idx as [|t rest IH]; simpl; [lia|]. destruct (t <=? w); simpl; lia.
Qed.

(** On a sorted index the rows at or before [w] are the leading ones. *)
Lemma filter_le_firstn (s : Series) (w : Timestamp) :
  StronglySorted Z.le (index s) ->
  filter (fun row => fst row <=? w) s = firstn (searchsorted_right (index s) w) s.
Proof.
  induction s as [|[t v] rest IH]; intros H; [reflexivity|].
  simpl in H. apply StronglySorted_inv in H as [Hrest Hall].
  simpl. destruct (t <=? w) eqn:E.
  - simpl. now rewrite IH.
  - simpl. apply Z.leb_gt in E.
    assert (Hnone : forall rows : Series,
               Forall (Z.le t) (index rows) ->
               filter (fun row => fst row <=? w) rows = []).
    { induction rows as [|[u x] rows IHr]; intros Hf; [reflexivity|].
      simpl in Hf. inversion Hf as [|? ? Hu Hf']; subst.
      simpl. destruct (u <=? w) eqn:E'; [apply Z.leb_le in E'; lia|].
      now apply IHr. }
    now apply Hnone.
Qed.

Lemma asof_last_observed (s : Series) (dt : Timestamp) :
  is_monotonic_increasing (index s) = true -> s <> [] ->
  asof s dt = Ok (last_observed s dt).
Proof.
  intros Hmono Hne. unfold asof, last_observed. rewrite Hmono. simpl negb. cbv iota.
  pose proof (monotonic_sorted _ Hmono) as Hs.
  rewrite (filter_le_firstn _ dt Hs).
  destruct s as [|[start v0] rest]; [contradiction|].
  pose proof (searchsorted_bound (index ((start, v0) :: rest)) dt) as Hb.
  revert Hb. simpl searchsorted_right.
  destruct (dt <? start) eqn:E.
  - apply Z.ltb_lt in E.
    destruct (start <=? dt) eqn:E'; [apply Z.leb_le in E'; lia|]. reflexivity.
  - apply Z.ltb_ge in E.
    destruct (start <=? dt) eqn:E'; [|apply Z.leb_gt in E'; lia].
    intros Hb. set (k := searchsorted_right (index rest) dt) in *.
    change (0 <? S k)%nat with true. cbv iota.
    replace (S k - 1)%nat with k by lia.
    rewrite back_to_valid_spec.
    + unfold values. now rewrite firstn_map.
    + unfold values. rewrite length_map. unfold index in Hb.
      rewrite length_map in Hb. exact Hb.
Qed.

(** ** The scan of the lookahead window *)

Section Scan.

Context {A : Type} (p : A -> bool).

Lemma next_index_shift (vals : list A) (start : nat) :
  next_index p vals start
  = option_map (fun j => (start + j)%nat) (next_index p vals O).
Proof.
  revert start; induction vals as [|v rest IH]; intros start; [reflexivity|].
  simpl. destruct (p v).
  - simpl. f_equal. lia.
  - rewrite (IH (S start)), (IH 1%nat).
    destruct (next_index p rest O); simpl; [f_equal; lia | reflexivity].
Qed.

Lemma next_index_cons (v : A) (rest : list A) :
  next_index p (v :: rest) O
  = if p v then Some O else option_map S (next_index p rest O).
Proof. simpl. destruct (p v); [reflexivity|]. apply next_index_shift. Qed.

(** [next] returns the first offset whose value passes the test. *)
Lemma next_index_Some (vals : list A) (j : nat) :
  next_index p vals O = Some j <->
  (exists x, nth_error vals j = Some x /\ p x = true)
  /\ forall i x, (i < j)%nat -> nth_error vals i = Some x -> p x = false.
Proof.
  revert j; induction vals as [|v rest IH]; intros j.
  - simpl. split; [discriminate|]. intros [(x & Hx & _) _].
    destruct j; discriminate.
  - rewrite next_index_cons. destruct (p v) eqn:Ev.
    + split.
      * intros E; inversion E; subst j. split; [now exists v|]. intros i x Hi; lia.
      * intros [_ Hall]. destruct j as [|j]; [reflexivity|].
        specialize (Hall O v (Nat.lt_0_succ j) eq_refl). congruence.
    + destruct j as [|j].
      * split.
        -- destruct (next_index p rest O); discriminate.
        -- intros [(x & Hx & Hp) _]. simpl in Hx. congruence.
      * split.
        -- intros E. destruct (next_index p rest O) as [j'|]; [|discriminate].
           simpl in E. inversion E; subst j'.
           destruct (proj1 (IH j) eq_refl) as [Hex Hall]. split; [exact Hex|].
           intros [|i] x Hi Hx; [simpl in Hx; congruence|].
           apply (Hall i x); [lia | exact Hx].
        -- intros [Hex Hall].
           assert (E' : next_index p rest O = Some j).
           { apply IH. split; [exact Hex|]. intros i x Hi Hx.
             apply (Hall (S i) x); [lia | exact Hx]. }
           now rewrite E'.
Qed.

Lemma next_index_None (vals : list A) :
  next_index p vals O = None <-> forall x, In x vals -> p x = false.
Proof.
  induction vals as [|v rest IH].
  - simpl. split; [intros _ x [] | reflexivity].
  - rewrite next_index_cons. destruct (p v) eqn:Ev.
    + split; [discriminate|]. intros H. specialize (H v (or_introl eq_refl)). congruence.
    + split.
      * intros E x [<- | Hx]; [exact Ev|].
        apply IH; [|exact Hx]. now destruct (next_index p rest O).
      * intros H. assert (E : next_index p rest O = None).
        { apply IH. intros x Hx. apply H. now right. }
        now rewrite E.
Qed.

Lemma next_index_bound (vals : list A) (j : nat) :
  next_index p vals O = Some j -> (j < List.length vals)%nat.
Proof.
  intros H. apply next_index_Some in H as [(x & Hx & _) _].
  apply nth_error_Some. congruence.
Qed.

End Scan.

Lemma qualifies_declined (b : Q) (v : fval) :
  qualifies (Some b) v = true <-> exists x, v = Some x /\ declined b x.
Proof.
  unfold qualifies, declined. destruct v as [x|]; simpl.
  - rewrite Qle_bool_iff. split; [intros H; now exists x|].
    intros (x' & E & H). now inversion E.
  - split; [discriminate|]. intros (x & E & _). discriminate.
Qed.

Lemma qualifies_false (b : Q) (x : Q) :
  qualifies (Some b) (Some x) = false <-> ~ declined b x.
Proof.
  rewrite <- not_true_iff_false, qualifies_declined. split.
  - intros H Hd. apply H. now exists x.
  - intros H (x' & E & Hd). inversion E; subst. now apply H.
Qed.

Lemma lag_window_length (s : Series) (dt : Timestamp) :
  (List.length (lag_window s dt) <= lookahead_months)%nat.
Proof. unfold lag_window, head. apply firstn_le_length. Qed.

Lemma lag_from_months (b : Q) (post : Series) (j : nat) :
  lag_from (Some b) post = LagMonths j <-> first_decline b (values post) j.
Proof.
  unfold lag_from, first_decline. simpl isna. cbv iota.
  destruct (next_index (qualifies (Some b)) (values post) O) as [j'|] eqn:E.
  - split.
    + intros H; inversion H; subst j'. apply next_index_Some in E as [(x & Hx & Hq) Hall].
      apply qualifies_declined in Hq as (q & -> & Hd). split; [now exists q|].
      intros i v Hi Hv. now apply qualifies_false, (Hall i).
    + intros [(v & Hv & Hd) Hall]. f_equal.
      assert (E' : next_index (qualifies (Some b)) (values post) O = Some j).
      { apply next_index_Some. split.
        - exists (Some v). split; [exact Hv|]. apply qualifies_declined. now exists v.
        - intros i [x|] Hi Hx; [|reflexivity].
          apply qualifies_false. now apply (Hall i). }
      congruence.
  - split; [discriminate|]. intros [(v & Hv & Hd) _].
    rewrite next_index_None in E.
    assert (Hq : qualifies (Some b) (Some v) = false)
      by (apply E; eapply nth_error_In; exact Hv).
    apply qualifies_false in Hq. contradiction.
Qed.

Lemma lag_from_exceeds (b : Q) (post : Series) :
  lag_from (Some b) post = LagExceeds <->
  forall v, In (Some v) (values post) -> ~ declined b v.
Proof.
  unfold lag_from. simpl isna. cbv iota.
  destruct (next_index (qualifies (Some b)) (values post) O) as [j|] eqn:E.
  - split; [discriminate|]. intros H.
    apply next_index_Some in E as [(x & Hx & Hq) _].
    apply qualifies_declined in Hq as (q & -> & Hd).
    exfalso. apply (H q); [|exact Hd]. eapply nth_error_In; exact Hx.
  - split; [|reflexivity]. intros _ v Hv.
    rewrite next_index_None in E. now apply qualifies_false, E.
Qed.

(** C2. For a non-empty comparison series in chronological order, the base
    is the last observed value at or before the cycle start; the window
    holds at most 24 observations, those on or after the cycle start in
    series order; without a base the result is the insufficient-data
    sentinel; otherwise it is the offset of the first observation of the
    window whose value minus base is at most -0.25 (an offset below 24), or
    the exceeds-window sentinel when no observation of the window qualifies.
    With base 6.5 and values 6.5, 6.4, 6.3, 6.2 the lag is 3. *)
Theorem pass_through_lag_contract (series : Series) (dt : Timestamp) :
  is_monotonic_increasing (index series) = true ->
  series <> [] ->
  let base := last_observed series dt in
  let window := lag_window series dt in
  asof series dt = Ok base
  /\ window = firstn 24 (filter (fun row => dt <=? fst row) series)
  /\ (base = NaN -> pass_through_lag series dt = Ok LagNA)
  /\ (forall b, base = Some b ->
        (forall j, pass_through_lag series dt = Ok (LagMonths j)
                   <-> first_decline b (values window) j)
        /\ (forall j, pass_through_lag series dt = Ok (LagMonths j) -> (j < 24)%nat)
        /\ (pass_through_lag series dt = Ok LagExceeds
            <-> forall v, In (Some v) (values window) -> ~ declined b v)
        /\ pass_through_lag series dt <> Ok LagNA)
  /\ pass_through_lag Sample.lending_2001 Sample.jan_2001 = Ok (LagMonths 3).
Proof.
  intros Hmono Hne base window.
  pose proof (asof_last_observed dt Hmono Hne) as Hasof. fold base in Hasof.
  split; [exact Hasof|]. split; [reflexivity|].
  assert (Hlag : pass_through_lag series dt = Ok (lag_from base window)).
  { unfold pass_through_lag. rewrite Hasof. reflexivity. }
  split; [|split; [|reflexivity]].
  - intros E. rewrite Hlag, E. reflexivity.
  - intros b E. rewrite Hlag, E. split; [|split; [|split]].
    + intros j. rewrite <- lag_from_months. split; congruence.
    + intros j H. assert (H' : lag_from (Some b) window = LagMonths j) by congruence.
      unfold lag_from in H'. simpl isna in H'. cbv iota in H'.
      destruct (next_index (qualifies (Some b)) (values window) O) as [j'|] eqn:Ej;
        [|discriminate].
      inversion H'; subst j'. apply next_index_bound in Ej.
      unfold values in Ej. rewrite length_map in Ej.
      pose proof (lag_window_length series dt) as Hw. fold window in Hw.
      unfold lookahead_months in Hw. lia.
    + rewrite <- lag_from_exceeds. split; congruence.
    + unfold lag_from. simpl isna. cbv iota.
      destruct (next_index _ _ _); discriminate.
Qed.

Lemma pass_through_lag_contract_witness :
  is_monotonic_increasing (index Sample.lending_2001) = true
  /\ Sample.lending_2001 <> []
  /\ last_observed Sample.lending_2001 Sample.jan_2001 = Sample.dec 650
  /\ asof Sample.lending_2001 Sample.jan_2001 = Ok (Sample.dec 650)
  /\ first_decline (650 # 100) (values (lag_window Sample.lending_2001 Sample.jan_2001)) 3.
Proof.
  assert (Hmono : is_monotonic_increasing (index Sample.lending_2001) = true)
    by reflexivity.
  assert (Hne : Sample.lending_2001 <> []) by discriminate.
  destruct (pass_through_lag_contract Sample.jan_2001 Hmono Hne)
    as (Hasof & _ & _ & Hnum & Hex).
  split; [exact Hmono|]. split; [exact Hne|]. split; [reflexivity|].
  split; [exact Hasof|].
  destruct (Hnum (650 # 100)%Q eq_refl) as (Hiff & _).
  apply Hiff. exact Hex.
Defined.

(** ** An observation exactly at the cycle start *)

Lemma strictly_sorted (idx : list Timestamp) :
  strictly_increasing idx = true -> StronglySorted Z.lt idx.
Proof.
  intros H. apply Sorted_StronglySorted; [exact Z.lt_trans|].
  induction idx as [|t rest IH]; [constructor|].
  destruct rest as [|u rest']; [repeat constructor|].
  change (strictly_increasing (t :: u :: rest'))
    with ((t <? u) && strictly_increasing (u :: rest')) in H.
  apply andb_true_iff in H as [Htu Hrest].
  constructor; [now apply IH|]. constructor. now apply Z.ltb_lt.
Qed.

Lemma strictly_monotonic (idx : list Timestamp) :
  strictly_increasing idx = true -> is_monotonic_increasing idx = true.
Proof.
  induction idx as [|t rest IH]; [reflexivity|].
  destruct rest as [|u rest']; [reflexivity|].
  change (strictly_increasing (t :: u :: rest'))
    with ((t <? u) && strictly_increasing (u :: rest')).
  change (is_monotonic_increasing (t :: u :: rest'))
    with ((t <=? u) && is_monotonic_increasing (u :: rest')).
  rewrite !andb_true_iff. intros [Htu Hrest]. split; [|now apply IH].
  apply Z.ltb_lt in Htu. apply Z.leb_le. lia.
Qed.

Lemma StronglySorted_app_r (A : Type) (R : A -> A -> Prop) (l1 l2 : list A) :
  StronglySorted R (l1 ++ l2) -> StronglySorted R l2.
Proof.
  induction l1 as [|x l1 IH]; intros H; [assumption|].
  simpl in H. apply StronglySorted_inv in H as [Hrest _]. now apply IH.
Qed.

Lemma filter_none (f : Timestamp * fval -> bool) (s : Series) :
  (forall row, In row s -> f row = false) -> filter f s = [].
Proof.
  induction s as [|row rest IH]; intros H; [reflexivity|].
  simpl. rewrite (H row (or_introl eq_refl)). apply IH. intros r Hr. apply H. now right.
Qed.

Lemma filter_all (f : Timestamp * fval -> bool) (s : Series) :
  (forall row, In row s -> f row = true) -> filter f s = s.
Proof.
  induction s as [|row rest IH]; intros H; [reflexivity|].
  simpl. rewrite (H row (or_introl eq_refl)). f_equal. apply IH.
  intros r Hr. apply H. now right.
Qed.

(** A series with strictly increasing timestamps splits around the row at
    [dt] into the earlier and the later rows. *)
Lemma split_at_row (s : Series) (dt : Timestamp) (v : fval) :
  strictly_increasing (index s) = true -> In (dt, v) s ->
  exists before after,
    s = before ++ (dt, v) :: after
    /\ (forall row, In row before -> fst row < dt)
    /\ (forall row, In row after -> dt < fst row).
Proof.
  intros Hs Hin. apply strictly_sorted in Hs.
  apply in_split in Hin as (before & after & ->).
  exists before, after. split; [reflexivity|].
  unfold index in Hs. rewrite map_app in Hs. simpl in Hs. split.
  - intros row Hrow.
    apply (StronglySorted_app_cross _ _ Hs (fst row) dt); [now apply in_map | now left].
  - intros row Hrow. apply StronglySorted_app_r in Hs.
    apply StronglySorted_inv in Hs as [_ Hall]. rewrite Forall_forall in Hall.
    apply Hall. now apply in_map.
Qed.

Lemma not_declined_self (x : Q) : ~ declined x x.
Proof.
  unfold declined. intros H.
  assert (E : (x - x == 0)%Q) by ring. rewrite E in H.
  apply Qle_bool_iff in H. discriminate.
Qed.

(** C9. In a series with strictly increasing timestamps that has an
    observation exactly at the cycle start, that observation opens the
    lookahead window; when it is present it is also the base, so its
    difference to the base is 0 and it cannot qualify, and when it is
    missing it is skipped. The lag is computed and is never the number 0:
    a numeric lag is at least 1. *)
Theorem lag_positive_at_cycle_start (series : Series) (dt : Timestamp) (v : fval) :
  strictly_increasing (index series) = true ->
  In (dt, v) series ->
  (v <> NaN -> asof series dt = Ok v)
  /\ hd_error (lag_window series dt) = Some (dt, v)
  /\ exists r, pass_through_lag series dt = Ok r
               /\ r <> LagMonths 0
               /\ forall j, r = LagMonths j -> (1 <= j)%nat.
Proof.
  intros Hs Hin.
  destruct (split_at_row _ _ _ Hs Hin) as (before & after & E & Hb & Ha).
  assert (Hne : series <> []) by (intros ->; contradiction).
  pose proof (asof_last_observed dt (strictly_monotonic _ Hs) Hne) as Hasof.
  assert (Hobs : last_observed series dt
                 = if isna v then last_valid (values before) else v).
  { unfold last_observed. rewrite E, filter_app. simpl filter.
    rewrite Z.leb_refl, (filter_all _ before), (filter_none _ after).
    - unfold values. rewrite map_app. apply last_valid_snoc.
    - intros row Hrow. apply Z.leb_gt. now apply Ha.
    - intros row Hrow. apply Z.leb_le, Z.lt_le_incl. now apply Hb. }
  assert (Hwin : lag_window series dt = (dt, v) :: firstn 23 after).
  { unfold lag_window, head, lookahead_months. rewrite E, filter_app. simpl filter.
    rewrite Z.leb_refl, (filter_none _ before), (filter_all _ after).
    - reflexivity.
    - intros row Hrow. apply Z.leb_le, Z.lt_le_incl. now apply Ha.
    - intros row Hrow. apply Z.leb_gt. now apply Hb. }
  split; [|split].
  - intros Hv. rewrite Hasof, Hobs. destruct v; [reflexivity | contradiction].
  - now rewrite Hwin.
  - exists (lag_from (last_observed series dt) (lag_window series dt)).
    split; [unfold pass_through_lag; now rewrite Hasof|].
    assert (Hnz : lag_from (last_observed series dt) (lag_window series dt)
                  <> LagMonths 0).
    { rewrite Hwin, Hobs. unfold lag_from.
      change (values ((dt, v) :: firstn 23 after)) with (v :: values (firstn 23 after)).
      destruct v as [x|]; simpl isna; cbv iota.
      - rewrite next_index_cons.
        rewrite (proj2 (qualifies_false x x) (@not_declined_self x)).
        destruct (next_index _ _ _); discriminate.
      - destruct (isna (last_valid (values before))); [discriminate|].
        rewrite next_index_cons. unfold qualifies at 1. simpl.
        destruct (next_index _ _ _); discriminate. }
    split; [exact Hnz|]. intros [|j] Hj; [contradiction | lia].
Qed.

Lemma lag_positive_at_cycle_start_witness :
  strictly_increasing (index Sample.lending_2001) = true
  /\ In (Sample.jan_2001, Sample.dec 650) Sample.lending_2001
  /\ asof Sample.lending_2001 Sample.jan_2001 = Ok (Sample.dec 650)
  /\ pass_through_lag Sample.lending_2001 Sample.jan_2001 = Ok (LagMonths 3).
Proof.
  assert (Hs : strictly_increasing (index Sample.lending_2001) = true) by reflexivity.
  assert (Hin : In (Sample.jan_2001, Sample.dec 650) Sample.lending_2001)
    by (left; reflexivity).
  destruct (lag_positive_at_cycle_start _ _ _ Hs Hin) as (Hbase & _ & _).
  split; [exact Hs|]. split; [exact Hin|]. split; [|reflexivity].
  apply Hbase. discriminate.
Defined.

(** The base and the window when the series has a row at the cycle start:
    the base is that row's value, or the last valid one before it when the
    row holds no value, and the row opens the window. *)
Lemma base_and_window_at_row (series : Series) (dt : Timestamp) (v : fval) :
  strictly_increasing (index series) = true ->
  In (dt, v) series ->
  exists before after,
    last_observed series dt = (if isna v then last_valid (values before) else v)
    /\ lag_window series dt = (dt, v) :: firstn 23 after.
Proof.
  intros Hs Hin.
  destruct (split_at_row _ _ _ Hs Hin) as (before & after & E & Hb & Ha).
  exists before, after. split.
  - unfold last_observed. rewrite E, filter_app. simpl filter.
    rewrite Z.leb_refl, (filter_all _ before), (filter_none _ after).
    + unfold values. rewrite map_app. apply last_valid_snoc.
    + intros row Hrow. apply Z.leb_gt. now apply Ha.
    + intros row Hrow. apply Z.leb_le, Z.lt_le_incl. now apply Hb.
  - unfold lag_window, head, lookahead_months. rewrite E, filter_app. simpl filter.
    rewrite Z.leb_refl, (filter_none _ before), (filter_all _ after).
    + reflexivity.
    + intros row Hrow. apply Z.leb_le, Z.lt_le_incl. now apply Ha.
    + intros row Hrow. apply Z.leb_gt. now apply Hb.
Qed.

(** With strictly increasing timestamps the observation exactly at the
    cycle start never passes the decline test of line 179, whatever the
    series holds: a present value is compared with itself, a missing one is
    skipped. The test can succeed at offset 0 only when the series has no
    row at the cycle start. *)
Lemma no_decline_at_cycle_start (series : Series) (dt : Timestamp) (v : fval)
    (b : Q) :
  strictly_increasing (index series) = true ->
  In (dt, v) series ->
  asof series dt = Ok (Some b) ->
  qualifies (Some b) v = false.
Proof.
  intros Hs Hin Hbase.
  assert (Hne : series <> []) by (intros ->; contradiction).
  rewrite (asof_last_observed dt (strictly_monotonic _ Hs) Hne) in Hbase.
  destruct (base_and_window_at_row _ _ _ Hs Hin) as (before & after & Hobs & _).
  rewrite Hobs in Hbase. destruct v as [x|]; [|reflexivity].
  simpl in Hbase. inversion Hbase; subst b.
  apply qualifies_false, not_declined_self.
Qed.

Lemma lag_from_at_row (series : Series) (dt : Timestamp) (v : fval) :
  strictly_increasing (index series) = true ->
  In (dt, v) series ->
  lag_from (last_observed series dt) (lag_window series dt) <> LagMonths 0.
Proof.
  intros Hs Hin.
  destruct (base_and_window_at_row _ _ _ Hs Hin) as (before & after & Hobs & Hwin).
  rewrite Hwin, Hobs. unfold lag_from.
  change (values ((dt, v) :: firstn 23 after)) with (v :: values (firstn 23 after)).
  destruct v as [x|]; simpl isna; cbv iota.
  - rewrite next_index_cons.
    rewrite (proj2 (qualifies_false x x) (@not_declined_self x)).
    destruct (next_index _ _ _); discriminate.
  - destruct (isna (last_valid (values before))); [discriminate|].
    rewrite next_index_cons. unfold qualifies at 1. simpl.
    destruct (next_index _ _ _); discriminate.
Qed.

(** ** Missing observations inside the lookahead window *)

Lemma values_dropna (s : Series) :
  values (dropna s) = filter (fun v => negb (isna v)) (values s).
Proof.
  unfold values, dropna. induction s as [|[t v] rest IH]; [reflexivity|].
  simpl. destruct (isna v); simpl; now rewrite IH.
Qed.

Lemma qualifies_present (base v : fval) :
  qualifies base v = true -> isna v = false.
Proof. unfold qualifies. destruct v; [reflexivity | discriminate]. Qed.

(** Dropping the missing values moves the first qualifying value forward
    by the number of missing values in front of it. *)
Lemma next_index_dropna (base : fval) (vals : list fval) (j : nat) :
  next_index (qualifies base) vals O = Some j ->
  exists j',
    next_index (qualifies base) (filter (fun v => negb (isna v)) vals) O = Some j'
    /\ j = (j' + count_na (firstn j vals))%nat.
Proof.
  revert j; induction vals as [|v rest IH]; intros j H; [discriminate|].
  rewrite next_index_cons in H. destruct (qualifies base v) eqn:Eq.
  - inversion H; subst j. exists O. split; [|reflexivity].
    simpl filter. rewrite (qualifies_present _ _ Eq). simpl negb. cbv iota.
    rewrite next_index_cons. now rewrite Eq.
  - destruct (next_index (qualifies base) rest O) as [k|] eqn:Ek; [|discriminate].
    simpl in H. inversion H; subst j.
    destruct (IH k eq_refl) as (k' & Hk' & Hcount).
    simpl filter. simpl firstn. simpl count_na. destruct (isna v); simpl negb; cbv iota.
    + exists k'. split; [exact Hk' | lia].
    + exists (S k'). split; [|lia].
      rewrite next_index_cons, Eq, Hk'. reflexivity.
Qed.

(** A missing value put in front of the first qualifying one moves it one
    offset further. *)
Lemma next_index_insert_na (base : fval) (pre rest : list fval) (j : nat) :
  next_index (qualifies base) (pre ++ rest) O = Some j ->
  (List.length pre <= j)%nat ->
  next_index (qualifies base) (pre ++ NaN :: rest) O = Some (S j).
Proof.
  revert j; induction pre as [|x pre IH]; intros j H Hlen.
  - simpl app in *. rewrite next_index_cons.
    assert (E : qualifies base NaN = false) by reflexivity.
    now rewrite E, H.
  - simpl app in *. rewrite next_index_cons in *.
    destruct (qualifies base x).
    + inversion H; subst j. simpl in Hlen. lia.
    + destruct (next_index (qualifies base) (pre ++ rest) O) as [k|] eqn:Ek;
        [|discriminate].
      simpl in H. inversion H; subst j. simpl in Hlen.
      rewrite (IH k eq_refl) by lia. reflexivity.
Qed.

(** C10. When the lag is a number [j], the observation at offset [j] of the
    window is present and qualifies; the offset counts the missing
    observations before it as well: it is the offset the same observation
    has once the missing ones are dropped, plus the number of missing
    observations in front of it; and one more missing observation in front
    of it makes the lag [j + 1]. *)
Theorem missing_observation_counts_in_lag (series : Series) (dt : Timestamp)
    (base : fval) (j : nat) :
  asof series dt = Ok base ->
  pass_through_lag series dt = Ok (LagMonths j) ->
  let window := lag_window series dt in
  (exists t v, nth_error window j = Some (t, Some v)
               /\ fle (fsub (Some v) base) decline_threshold = true)
  /\ (exists j', lag_from base (dropna window) = LagMonths j'
                 /\ j = (j' + count_na (firstn j (values window)))%nat)
  /\ (forall pre rest t,
        window = pre ++ rest -> (List.length pre <= j)%nat ->
        lag_from base (pre ++ (t, NaN) :: rest) = LagMonths (S j)).
Proof.
  intros Hbase Hlag window. unfold pass_through_lag in Hlag.
  rewrite Hbase in Hlag. simpl bind in Hlag. fold window in Hlag.
  unfold lag_from in *. destruct (isna base) eqn:Ena; [discriminate|].
  destruct (next_index (qualifies base) (values window) O) as [k|] eqn:Ek;
    [|discriminate].
  inversion Hlag; subst k. split; [|split].
  - apply next_index_Some in Ek as [(x & Hx & Hq) _].
    unfold values in Hx. rewrite nth_error_map in Hx.
    destruct (nth_error window j) as [[t v]|]; [|discriminate].
    simpl in Hx. inversion Hx; subst x.
    unfold qualifies in Hq. destruct v as [q|]; [|discriminate].
    exists t, q. split; [reflexivity | exact Hq].
  - destruct (next_index_dropna _ _ Ek) as (j' & Hj' & Hcount).
    exists j'. rewrite values_dropna, Hj'. split; [reflexivity | exact Hcount].
  - intros pre rest t Hw Hlen. unfold values in *. rewrite Hw in Ek.
    rewrite map_app in *. simpl map.
    rewrite (next_index_insert_na base (map snd pre) (map snd rest) Ek);
      [reflexivity|]. now rewrite length_map.
Qed.

Lemma missing_observation_counts_in_lag_witness :
  asof Sample.lending_gap Sample.jan_2001 = Ok (Sample.dec 650)
  /\ pass_through_lag Sample.lending_gap Sample.jan_2001 = Ok (LagMonths 3)
  /\ count_na (firstn 3 (values (lag_window Sample.lending_gap Sample.jan_2001)))
     = 1%nat
  /\ (exists j', lag_from (Sample.dec 650)
                         (dropna (lag_window Sample.lending_gap Sample.jan_2001))
                 = LagMonths j'
                 /\ 3%nat = (j' + 1)%nat)
  /\ lag_from (Sample.dec 650)
              (firstn 2 Sample.lending_gap
               ++ (Sample.mid_feb_2001, NaN) :: skipn 2 Sample.lending_gap)
     = LagMonths 4.
Proof.
  split; [reflexivity|]. split; [reflexivity|]. split; [reflexivity|].
  destruct (@missing_observation_counts_in_lag Sample.lending_gap Sample.jan_2001
              (Sample.dec 650) 3 eq_refl eq_refl) as (_ & Hshift & Hinsert).
  split; [exact Hshift|].
  apply Hinsert; [reflexivity | simpl; lia].
Defined.

(** ** Pre/post growth *)

Lemma empty_nil (s : Series) : empty s = true <-> s = [].
Proof. destruct s; simpl; split; congruence. Qed.

Lemma fne_zero (m : fval) : fne m (Some 0%Q) = negb (mean_is_zero m).
Proof. now destruct m. Qed.

(** Under the guard the division has a non-zero divisor and returns. *)
Lemma fdiv_guarded (a b : fval) :
  mean_is_zero b = false -> fdiv a b = Ok (lift2 Qdiv a b).
Proof.
  unfold fdiv, mean_is_zero. destruct b as [d|]; [|now destruct a].
  now intros ->.
Qed.

Lemma pre_post_growth_cases (series : Series) (dt : Timestamp) :
  pre_post_growth series dt
  = if empty (post_window series dt) || empty (pre_window series dt)
       || mean_is_zero (mean (pre_window series dt))
    then Ok None
    else Ok (Some (growth_formula (mean (pre_window series dt))
                                  (mean (post_window series dt)))).
Proof.
  unfold pre_post_growth. rewrite fne_zero.
  destruct (empty (post_window series dt)); [reflexivity|].
  destruct (empty (pre_window series dt)); [reflexivity|].
  destruct (mean_is_zero (mean (pre_window series dt))) eqn:E; [reflexivity|].
  simpl andb. cbv iota. now rewrite (fdiv_guarded _ _ E).
Qed.

Lemma round_half_even_comp (q q' : Q) :
  (q == q')%Q -> round_half_even q = round_half_even q'.
Proof.
  intros E. unfold round_half_even. cbv zeta. rewrite (Qfloor_comp _ _ E).
  assert (Ec : ((q - inject_Z (Qfloor q') ?= 1 # 2)
                = (q' - inject_Z (Qfloor q') ?= 1 # 2))%Q).
  { apply Qcompare_comp; [|reflexivity]. now apply Qplus_comp. }
  now rewrite Ec.
Qed.

Lemma format_pct_comp (r r' : Q) :
  (r == r')%Q -> format_pct (Some r) = format_pct (Some r').
Proof.
  intros E. unfold format_pct, Qlt_bool.
  assert (Ea : (Qabs r * 10 == Qabs r' * 10)%Q)
    by (apply Qmult_comp; [now apply Qabs_wd | reflexivity]).
  rewrite (round_half_even_comp Ea), (Qleb_comp 0%Q 0%Q (Qeq_refl 0%Q) r r' E).
  reflexivity.
Qed.

(** C3. The pre window holds the observations later than the cycle start
    minus 12 months and not later than the cycle start, the post window
    those later than the cycle start and not later than the cycle start
    plus 12 months. When either is empty or the pre mean is exactly zero
    there is no result; otherwise the result is
    (mean(post) - mean(pre)) / mean(pre) * 100. A pre mean of 100 and a
    post mean of 110 give 10, shown as +10.0%. *)
Theorem pre_post_growth_contract (series : Series) (dt : Timestamp) :
  let pre := pre_window series dt in
  let post := post_window series dt in
  (forall row, In row pre <->
               In row series /\ add_months dt (- 12) < fst row /\ fst row <= dt)
  /\ (forall row, In row post <->
                  In row series /\ dt < fst row /\ fst row <= add_months dt 12)
  /\ (pre = [] \/ post = [] \/ mean_is_zero (mean pre) = true ->
      pre_post_growth series dt = Ok None)
  /\ (pre <> [] -> post <> [] -> mean_is_zero (mean pre) = false ->
      pre_post_growth series dt = Ok (Some (growth_formula (mean pre) (mean post))))
  /\ (forall a b,
        mean pre = Some a -> mean post = Some b ->
        (a == 100)%Q -> (b == 110)%Q ->
        exists r, pre_post_growth series dt = Ok (Some (Some r))
                  /\ (r == 10)%Q
                  /\ format_pct (Some r) = "+10.0%"%string).
Proof.
  intros pre post.
  assert (Hguard : pre <> [] -> post <> [] -> mean_is_zero (mean pre) = false ->
                   pre_post_growth series dt
                   = Ok (Some (growth_formula (mean pre) (mean post)))).
  { intros Hpre Hpost Hz. rewrite pre_post_growth_cases. fold pre post.
    destruct (empty post) eqn:E1; [apply empty_nil in E1; contradiction|].
    destruct (empty pre) eqn:E2; [apply empty_nil in E2; contradiction|].
    now rewrite Hz. }
  split; [|split; [|split; [|split; [exact Hguard|]]]].
  - intros row. unfold pre, pre_window, window_months.
    rewrite filter_In, andb_true_iff, Z.ltb_lt, Z.leb_le. reflexivity.
  - intros row. unfold post, post_window, window_months.
    rewrite filter_In, andb_true_iff, Z.ltb_lt, Z.leb_le. reflexivity.
  - intros H. rewrite pre_post_growth_cases. fold pre post.
    destruct H as [-> | [-> | ->]].
    + simpl. now rewrite orb_true_r.
    + reflexivity.
    + now rewrite orb_true_r.
  - intros a b Ha Hb Ea Eb.
    assert (Hpre : pre <> []) by (intros E; rewrite E in Ha; discriminate).
    assert (Hpost : post <> []) by (intros E; rewrite E in Hb; discriminate).
    assert (Hz : mean_is_zero (mean pre) = false).
    { rewrite Ha. simpl. apply not_true_iff_false. rewrite Qeq_bool_iff, Ea.
      intros E. discriminate E. }
    exists ((b - a) / a * 100)%Q. rewrite (Hguard Hpre Hpost Hz), Ha, Hb.
    split; [reflexivity|].
    assert (Er : ((b - a) / a * 100 == 10)%Q) by (rewrite Ea, Eb; reflexivity).
    split; [exact Er|]. now rewrite (format_pct_comp Er).
Qed.

Lemma pre_post_growth_contract_witness :
  (mean (pre_window Sample.spending_2001 Sample.feb_2001) = Some (200 # 2)%Q
   /\ mean (post_window Sample.spending_2001 Sample.feb_2001) = Some (220 # 2)%Q
   /\ (200 # 2 == 100)%Q /\ (220 # 2 == 110)%Q
   /\ exists r,
        pre_post_growth Sample.spending_2001 Sample.feb_2001 = Ok (Some (Some r))
        /\ (r == 10)%Q
        /\ format_pct (Some r) = "+10.0%"%string)
  /\ (post_window Sample.spending_2001 Sample.oct_2001 = []
      /\ pre_post_growth Sample.spending_2001 Sample.oct_2001 = Ok None)
  /\ (pre_window Sample.spending_2001 Sample.feb_2001 <> []
      /\ post_window Sample.spending_2001 Sample.feb_2001 <> []
      /\ mean_is_zero (mean (pre_window Sample.spending_2001 Sample.feb_2001))
         = false
      /\ pre_post_growth Sample.spending_2001 Sample.feb_2001
         = Ok (Some (growth_formula (Some (200 # 2)%Q) (Some (220 # 2)%Q)))).
Proof.
  assert (Hpre : mean (pre_window Sample.spending_2001 Sample.feb_2001)
                 = Some (200 # 2)%Q) by (vm_compute; reflexivity).
  assert (Hpost : mean (post_window Sample.spending_2001 Sample.feb_2001)
                  = Some (220 # 2)%Q) by (vm_compute; reflexivity).
  assert (Ha : (200 # 2 == 100)%Q) by reflexivity.
  assert (Hb : (220 # 2 == 110)%Q) by reflexivity.
  assert (Hempty : post_window Sample.spending_2001 Sample.oct_2001 = [])
    by (vm_compute; reflexivity).
  assert (Hne1 : pre_window Sample.spending_2001 Sample.feb_2001 <> [])
    by (vm_compute; discriminate).
  assert (Hne2 : post_window Sample.spending_2001 Sample.feb_2001 <> [])
    by (vm_compute; discriminate).
  assert (Hnz : mean_is_zero (mean (pre_window Sample.spending_2001 Sample.feb_2001))
                = false) by (vm_compute; reflexivity).
  split; [|split].
  - split; [exact Hpre|]. split; [exact Hpost|]. split; [exact Ha|].
    split; [exact Hb|].
    destruct (pre_post_growth_contract Sample.spending_2001 Sample.feb_2001)
      as (_ & _ & _ & _ & Hex).
    exact (Hex _ _ Hpre Hpost Ha Hb).
  - split; [exact Hempty|].
    destruct (pre_post_growth_contract Sample.spending_2001 Sample.oct_2001)
      as (_ & _ & Habsent & _).
    apply Habsent. right. left. exact Hempty.
  - split; [exact Hne1 | split; [exact Hne2 | split; [exact Hnz|]]].
    destruct (pre_post_growth_contract Sample.spending_2001 Sample.feb_2001)
      as (_ & _ & _ & Hpresent & _).
    rewrite (Hpresent Hne1 Hne2 Hnz), Hpre, Hpost. reflexivity.
Defined.

(** C6. The growth computation never faults: its division runs only when
    the post window and the pre window are not empty and the pre mean is
    not zero, so the divisor is never zero; and a pre mean of zero gives no
    result whatever the post window holds. *)
Theorem growth_division_guarded (series : Series) (dt : Timestamp) :
  let pre := pre_window series dt in
  let post := post_window series dt in
  (exists r, pre_post_growth series dt = Ok r)
  /\ (forall pct, pre_post_growth series dt = Ok (Some pct) ->
                  post <> [] /\ pre <> [] /\ mean_is_zero (mean pre) = false
                  /\ fdiv (fsub (mean post) (mean pre)) (mean pre)
                     = Ok (lift2 Qdiv (fsub (mean post) (mean pre)) (mean pre)))
  /\ (mean_is_zero (mean pre) = true -> pre_post_growth series dt = Ok None).
Proof.
  intros pre post. rewrite pre_post_growth_cases. fold pre post.
  split; [|split].
  - destruct (empty post || empty pre || mean_is_zero (mean pre)); eauto.
  - intros pct H.
    destruct (empty post) eqn:E1; [discriminate|].
    destruct (empty pre) eqn:E2; [discriminate|].
    destruct (mean_is_zero (mean pre)) eqn:E3; [discriminate|].
    split; [intros E; now rewrite E in E1|].
    split; [intros E; now rewrite E in E2|].
    split; [reflexivity|]. now apply fdiv_guarded.
  - intros ->. now rewrite orb_true_r.
Qed.

Lemma growth_division_guarded_witness :
  (mean_is_zero (mean (pre_window Sample.zero_baseline Sample.feb_2001)) = true
   /\ post_window Sample.zero_baseline Sample.feb_2001 <> []
   /\ pre_post_growth Sample.zero_baseline Sample.feb_2001 = Ok None)
  /\ (pre_post_growth Sample.spending_2001 Sample.feb_2001
      = Ok (Some (growth_formula (Some (200 # 2)%Q) (Some (220 # 2)%Q)))
      /\ mean_is_zero (mean (pre_window Sample.spending_2001 Sample.feb_2001))
         = false).
Proof.
  assert (Hz : mean_is_zero (mean (pre_window Sample.zero_baseline Sample.feb_2001))
               = true) by (vm_compute; reflexivity).
  assert (Hsome : pre_post_growth Sample.spending_2001 Sample.feb_2001
                  = Ok (Some (growth_formula (Some (200 # 2)%Q) (Some (220 # 2)%Q))))
    by (vm_compute; reflexivity).
  split.
  - split; [exact Hz|]. split; [vm_compute; discriminate|].
    destruct (growth_division_guarded Sample.zero_baseline Sample.feb_2001)
      as (_ & _ & Hzero).
    exact (Hzero Hz).
  - split; [exact Hsome|].
    destruct (growth_division_guarded Sample.spending_2001 Sample.feb_2001)
      as (_ & Hguard & _).
    destruct (Hguard _ Hsome) as (_ & _ & Hnz & _). exact Hnz.
Defined.

(** * Further properties of the code *)

(** ** [find_cut_cycles]: what is returned and for which [n] *)

Lemma In_skipn_incl (A : Type) (k : nat) (l : list A) (x : A) :
  In x (skipn k l) -> In x l.
Proof.
  intros H. rewrite <- (firstn_skipn k l). apply in_or_app. now right.
Qed.

Lemma starts_from_incl (cuts : list Timestamp) (p : option Timestamp) (dt : Timestamp) :
  In dt (starts_from p cuts) -> In dt cuts.
Proof.
  revert p; induction cuts as [|c rest IH]; intros p H; [contradiction|].
  simpl in H. destruct (starts_cycle p c).
  - destruct H as [<- | H]; [now left | right; eauto].
  - right; eauto.
Qed.

Lemma in_adjacent (s : Series) (a b : Timestamp * fval) :
  In (a, b) (adjacent s) ->
  exists i, nth_error s i = Some a /\ nth_error s (S i) = Some b.
Proof.
  unfold adjacent. induction s as [|x rest IH]; intros H; [contradiction|].
  destruct rest as [|y rest']; [contradiction|].
  change (combine (x :: y :: rest') (tl (x :: y :: rest')))
    with ((x, y) :: combine (y :: rest') (tl (y :: rest'))) in H.
  destruct H as [E | H].
  - inversion E; subst. now exists O.
  - destruct (IH H) as (i & Ha & Hb). now exists (S i).
Qed.

Lemma flt_Qlt (a b : fval) :
  flt a b = true <-> exists x y, a = Some x /\ b = Some y /\ (x < y)%Q.
Proof.
  destruct a as [x|], b as [y|]; simpl;
    try (split; [discriminate | intros (x' & y' & E1 & E2 & _); discriminate]).
  unfold Qlt_bool. rewrite negb_true_iff, <- not_true_iff_false, Qle_bool_iff. split.
  - intros H. exists x, y. repeat split. now apply Qnot_le_lt.
  - intros (x' & y' & E1 & E2 & H). inversion E1; inversion E2; subst.
    now apply Qlt_not_le.
Qed.

(** X1. Every date [find_cut_cycles] returns is the timestamp of an
    observation other than the first one, present like its predecessor, whose
    value lies more than 0.05 below the predecessor's. *)
Theorem cycle_starts_are_cut_months (fedfunds : Series) (n : Z) (dt : Timestamp) :
  In dt (find_cut_cycles fedfunds n) ->
  exists i t0 v0 v1,
    nth_error fedfunds i = Some (t0, Some v0)
    /\ nth_error fedfunds (S i) = Some (dt, Some v1)
    /\ (v1 - v0 < - (5 # 100))%Q.
Proof.
  intros H. rewrite find_cut_cycles_detected in H. unfold slice_from in H.
  apply In_skipn_incl in H. unfold detected in H. rewrite walk_cycles in H.
  apply starts_from_incl in H. rewrite cut_months_refines in H.
  unfold cut_months_spec in H. apply in_map_iff in H as ([[t0 v0] [t1 v1]] & E & H).
  simpl in E; subst t1. apply filter_In in H as [Hin Hcut].
  apply in_adjacent in Hin as (i & Ha & Hb).
  unfold is_cut in Hcut. simpl in Hcut. apply flt_Qlt in Hcut as (x & y & E1 & E2 & Hlt).
  destruct v1 as [q1|], v0 as [q0|]; try discriminate.
  simpl in E1. inversion E1; subst x. inversion E2; subst y.
  now exists i, t0, q0, q1.
Qed.

Lemma cycle_starts_are_cut_months_witness :
  In Sample.oct_2001 (find_cut_cycles Sample.rates_2001 3)
  /\ exists i t0 v0 v1,
       nth_error Sample.rates_2001 i = Some (t0, Some v0)
       /\ nth_error Sample.rates_2001 (S i) = Some (Sample.oct_2001, Some v1)
       /\ (v1 - v0 < - (5 # 100))%Q.
Proof.
  assert (H : In Sample.oct_2001 (find_cut_cycles Sample.rates_2001 3))
    by (vm_compute; tauto).
  split; [exact H|]. exact (cycle_starts_are_cut_months _ _ _ H).
Defined.

(** X2. [cycles[-n:]] keeps nothing back for [n = 0]: every detected cycle
    start is returned, not none; and for a negative [n] the first [-n]
    detected starts are dropped and all later ones returned. *)
Theorem find_cut_cycles_nonpositive (fedfunds : Series) :
  find_cut_cycles fedfunds 0 = detected fedfunds
  /\ forall n, n < 0 ->
       find_cut_cycles fedfunds n = skipn (Z.to_nat (- n)) (detected fedfunds).
Proof.
  split.
  - rewrite find_cut_cycles_detected. unfold slice_from. simpl (- 0).
    change (0 <? 0) with false. cbv iota.
    replace (Z.to_nat (Z.min 0 _)) with O by lia. reflexivity.
  - intros n Hn. rewrite find_cut_cycles_detected. unfold slice_from.
    destruct (- n <? 0) eqn:E; [apply Z.ltb_lt in E; lia|].
    set (l := detected fedfunds).
    destruct (Z_le_gt_dec (- n) (Z.of_nat (List.length l))) as [Hle | Hgt].
    + f_equal. lia.
    + rewrite !skipn_all2 by lia. reflexivity.
Qed.

Lemma find_cut_cycles_nonpositive_witness :
  -1 < 0
  /\ find_cut_cycles Sample.rates_2001 0 = [Sample.feb_2001; Sample.oct_2001]
  /\ find_cut_cycles Sample.rates_2001 (-1) = [Sample.oct_2001].
Proof.
  destruct (find_cut_cycles_nonpositive Sample.rates_2001) as [H0 Hneg].
  split; [lia|]. split.
  - rewrite H0. vm_compute. reflexivity.
  - rewrite (Hneg (-1)) by lia. vm_compute. reflexivity.
Defined.

Lemma starts_from_all (cuts : list Timestamp) (p : option Timestamp) :
  (forall c, hd_error cuts = Some c -> starts_cycle p c = true) ->
  (forall k a b, nth_error cuts k = Some a -> nth_error cuts (S k) = Some b ->
                 min_spacing_days < days (b - a)) ->
  starts_from p cuts = cuts.
Proof.
  revert p; induction cuts as [|c rest IH]; intros p Hhd Hgap; [reflexivity|].
  simpl. rewrite (Hhd c eq_refl). f_equal. apply IH.
  - intros c' Hc'. apply starts_cycle_gap. apply (Hgap O c c'); [reflexivity|].
    destruct rest; [discriminate | exact Hc'].
  - intros k a b Ha Hb. apply (Hgap (S k) a b); assumption.
Qed.

(** X3. When every cut month lies more than 180 days after the cut month
    before it, each cut month is detected as a cycle start of its own. *)
Theorem spaced_cuts_all_detected (fedfunds : Series) :
  (forall k a b,
     nth_error (cut_months fedfunds) k = Some a ->
     nth_error (cut_months fedfunds) (S k) = Some b ->
     min_spacing_days < days (b - a)) ->
  detected fedfunds = cut_months fedfunds.
Proof.
  intros H. unfold detected. rewrite walk_cycles.
  apply starts_from_all; [reflexivity | exact H].
Qed.

Lemma spaced_cuts_all_detected_witness :
  (forall k a b,
     nth_error (cut_months Cases.rates_two_cuts) k = Some a ->
     nth_error (cut_months Cases.rates_two_cuts) (S k) = Some b ->
     min_spacing_days < days (b - a))
  /\ detected Cases.rates_two_cuts = [Sample.feb_2001; Sample.oct_2001].
Proof.
  assert (E : cut_months Cases.rates_two_cuts = [Sample.feb_2001; Sample.oct_2001])
    by (vm_compute; reflexivity).
  assert (H : forall k a b,
             nth_error (cut_months Cases.rates_two_cuts) k = Some a ->
             nth_error (cut_months Cases.rates_two_cuts) (S k) = Some b ->
             min_spacing_days < days (b - a)).
  { rewrite E. intros [|[|k]] a b Ha Hb; simpl in Ha, Hb; try discriminate.
    inversion Ha; inversion Hb; subst. vm_compute. reflexivity. }
  split; [exact H|]. rewrite (spaced_cuts_all_detected _ H). exact E.
Defined.

(** X4. For [n >= 1] the result is empty exactly when the series has no cut
    month, and the first detected cycle start is the first cut month; so the
    run stops at the error message exactly when the policy rate has no cut
    month, whatever the comparison series hold. *)
Theorem no_cycles_iff_no_cut_month (fedfunds : Series) :
  (forall n, 1 <= n -> (find_cut_cycles fedfunds n = [] <-> cut_months fedfunds = []))
  /\ hd_error (detected fedfunds) = hd_error (cut_months fedfunds)
  /\ (forall mortgage dprime rsxfs pce,
        dashboard fedfunds mortgage dprime rsxfs pce = Ok (Stopped no_cycles_message)
        <-> cut_months fedfunds = []).
Proof.
  assert (Hhd : hd_error (detected fedfunds) = hd_error (cut_months fedfunds)).
  { unfold detected. rewrite walk_cycles. now destruct (cut_months fedfunds). }
  assert (Hiff : forall n, 1 <= n ->
                   (find_cut_cycles fedfunds n = [] <-> cut_months fedfunds = [])).
  { intros n Hn. rewrite find_cut_cycles_detected, slice_last by exact Hn. split.
    - intros E. destruct (cut_months fedfunds) as [|c cs] eqn:Ec; [reflexivity|].
      destruct (detected fedfunds) as [|d ds] eqn:Ed; [discriminate Hhd|].
      assert (Hlen : List.length (skipn (List.length (d :: ds) - Z.to_nat n) (d :: ds))
                     = O) by now rewrite E.
      rewrite length_skipn in Hlen. cbn [List.length] in Hlen. lia.
    - intros E. unfold detected. rewrite E. apply skipn_nil. }
  split; [exact Hiff|]. split; [exact Hhd|].
  intros mortgage dprime rsxfs pce. rewrite <- (Hiff 3) by lia.
  unfold dashboard. destruct (find_cut_cycles fedfunds 3) as [|c cs].
  - split; reflexivity.
  - split; [|discriminate]. intros H.
    destruct (lag_rows _ _ _); cbn [bind] in H; [|discriminate H].
    destruct (growth_rows _ _ _); cbn [bind] in H; discriminate H.
Qed.

Lemma no_cycles_iff_no_cut_month_witness :
  1 <= 3
  /\ cut_months Sample.rates_flat = []
  /\ find_cut_cycles Sample.rates_flat 3 = []
  /\ dashboard Sample.rates_flat Sample.lending_2001 Sample.lending_gap
               Sample.spending_2001 Sample.zero_baseline
     = Ok (Stopped no_cycles_message).
Proof.
  assert (E : cut_months Sample.rates_flat = []) by (vm_compute; reflexivity).
  destruct (no_cycles_iff_no_cut_month Sample.rates_flat) as (Hn & _ & Hd).
  split; [lia|]. split; [exact E|]. split.
  - apply (Hn 3); [lia | exact E].
  - apply Hd. exact E.
Defined.

(** X5. Asking for more cycles only adds older ones: for [1 <= n <= m] the
    result for [n] is the tail end of the result for [m]. *)
Theorem find_cut_cycles_suffix (fedfunds : Series) (n m : Z) :
  1 <= n -> n <= m ->
  exists older,
    find_cut_cycles fedfunds m = older ++ find_cut_cycles fedfunds n.
Proof.
  intros Hn Hm. rewrite !find_cut_cycles_detected, !slice_last by lia.
  set (l := detected fedfunds).
  set (a := (List.length l - Z.to_nat m)%nat).
  set (b := (List.length l - Z.to_nat n)%nat).
  exists (firstn (b - a) (skipn a l)).
  replace (skipn b l) with (skipn (b - a) (skipn a l)).
  - symmetry. apply firstn_skipn.
  - rewrite skipn_skipn. f_equal. unfold a, b. lia.
Qed.

Lemma find_cut_cycles_suffix_witness :
  1 <= 1 /\ 1 <= 3
  /\ exists older,
       find_cut_cycles Sample.rates_2001 3
       = older ++ find_cut_cycles Sample.rates_2001 1.
Proof.
  split; [lia|]. split; [lia|].
  apply find_cut_cycles_suffix; lia.
Defined.
(** ** Month starts *)

Ltac decide_conditions :=
  repeat match goal with
         | |- context [if ?c then _ else _] =>
             let v := eval vm_compute in c in change c with v; cbv iota
         end.

Lemma month_step_days (y m0 : Z) :
  0 <= m0 < 11 ->
  28 <= days_from_civil y (m0 + 2) 1 - days_from_civil y (m0 + 1) 1 <= 31.
Proof.
  intros H.
  assert (C : m0 = 0 \/ m0 = 1 \/ m0 = 2 \/ m0 = 3 \/ m0 = 4 \/ m0 = 5
              \/ m0 = 6 \/ m0 = 7 \/ m0 = 8 \/ m0 = 9 \/ m0 = 10) by lia.
  unfold days_from_civil.
  destruct C as [->|[->|[->|[->|[->|[->|[->|[->|[->|[->| ->]]]]]]]]]];
    decide_conditions; Z.div_mod_to_equations; lia.
Qed.

Lemma year_step_days (y : Z) :
  days_from_civil (y + 1) 1 1 - days_from_civil y 12 1 = 31.
Proof.
  unfold days_from_civil. decide_conditions. Z.div_mod_to_equations. lia.
Qed.

(** From one month start to the next there are 28 to 31 days. *)
Lemma month_begin_step (k : Z) :
  28 * ns_per_day <= month_begin (k + 1) - month_begin k <= 31 * ns_per_day.
Proof.
  unfold month_begin, ymd.
  assert (Hm : 0 <= k mod 12 < 12) by (apply Z.mod_pos_bound; lia).
  destruct (Z.eq_dec (k mod 12) 11) as [E | NE].
  - assert (E1 : (k + 1) / 12 = k / 12 + 1) by (Z.div_mod_to_equations; lia).
    assert (E2 : (k + 1) mod 12 = 0) by (Z.div_mod_to_equations; lia).
    rewrite E1, E2, E. simpl (11 + 1). simpl (0 + 1).
    pose proof (year_step_days (k / 12)). unfold ns_per_day. lia.
  - assert (E1 : (k + 1) / 12 = k / 12) by (Z.div_mod_to_equations; lia).
    assert (E2 : (k + 1) mod 12 = k mod 12 + 1) by (Z.div_mod_to_equations; lia).
    rewrite E1, E2. replace (k mod 12 + 1 + 1) with (k mod 12 + 2) by lia.
    pose proof (@month_step_days (k / 12) (k mod 12)). unfold ns_per_day. lia.
Qed.

Lemma month_begin_lt (k : Z) : month_begin k < month_begin (k + 1).
Proof. pose proof (month_begin_step k). unfold ns_per_day in *. lia. Qed.

(** ** [fetch]: the shape of what it returns *)

Lemma index_month_bins (k : Z) (count : nat) (raw : Series) :
  index (month_bins k count raw) = map month_begin (months_from k count).
Proof.
  revert k; induction count as [|c IH]; intros k; [reflexivity|].
  simpl. now rewrite <- IH.
Qed.

Lemma index_ffill_from (s : Series) (last : fval) :
  index (ffill_from last s) = index s.
Proof.
  revert last; induction s as [|[t v] rest IH]; intros last; [reflexivity|].
  simpl. now rewrite IH.
Qed.

Lemma length_ffill_from (s : Series) (last : fval) :
  List.length (ffill_from last s) = List.length s.
Proof.
  revert last; induction s as [|[t v] rest IH]; intros last; [reflexivity|].
  simpl. now rewrite IH.
Qed.

(** After a value has been seen, forward filling leaves nothing missing. *)
Lemma ffill_from_present (s : Series) (x : Q) :
  dropna (ffill_from (Some x) s) = ffill_from (Some x) s.
Proof.
  revert x; induction s as [|[t v] rest IH]; intros x; [reflexivity|].
  simpl. destruct v as [y|]; simpl; now rewrite IH.
Qed.

(** [dropna] after [ffill] removes leading rows only. *)
Lemma dropna_ffill_suffix (s : Series) :
  exists j, dropna (ffill s) = skipn j (ffill s).
Proof.
  unfold ffill. induction s as [|[t v] rest IH]; [now exists O|].
  simpl. destruct v as [x|]; simpl.
  - exists O. simpl. now rewrite ffill_from_present.
  - destruct IH as [j Hj]. exists (S j). exact Hj.
Qed.

Lemma skipn_months_from (j count : nat) (k : Z) :
  skipn j (months_from k count) = months_from (k + Z.of_nat j) (count - j).
Proof.
  revert k count; induction j as [|j IH]; intros k count.
  - simpl. rewrite Z.add_0_r, Nat.sub_0_r. reflexivity.
  - destruct count as [|c]; [reflexivity|].
    simpl skipn. rewrite IH. simpl Nat.sub. f_equal. lia.
Qed.

Lemma length_months_from (k : Z) (count : nat) :
  List.length (months_from k count) = count.
Proof. revert k; induction count as [|c IH]; intros k; simpl; auto. Qed.

Lemma months_strictly_increasing (k : Z) (count : nat) :
  strictly_increasing (map month_begin (months_from k count)) = true.
Proof.
  revert k; induction count as [|c IH]; intros k; [reflexivity|].
  destruct c as [|c']; [reflexivity|].
  change (months_from k (S (S c'))) with (k :: months_from (k + 1) (S c')).
  specialize (IH (k + 1)).
  change (months_from (k + 1) (S c')) with ((k + 1) :: months_from (k + 1 + 1) c') in *.
  simpl map in *.
  change (strictly_increasing (month_begin k :: month_begin (k + 1) :: ?l))
    with ((month_begin k <? month_begin (k + 1))
          && strictly_increasing (month_begin (k + 1) :: l)).
  rewrite IH, andb_true_r. apply Z.ltb_lt, month_begin_lt.
Qed.

Lemma dropna_present (s : Series) :
  Forall (fun row => isna (snd row) = false) (dropna s).
Proof.
  apply Forall_forall. intros row H. apply filter_In in H as [_ H].
  now apply negb_true_iff in H.
Qed.

Lemma index_resample (raw : Series) :
  exists lo c, index (resample_MS_mean raw) = map month_begin (months_from lo c).
Proof.
  destruct raw as [|[t0 v0] rest]; [now exists 0, O|].
  unfold resample_MS_mean. eexists. eexists. apply index_month_bins.
Qed.

Lemma fetch_index (series_id : string) (raw : result Series) :
  exists k, index (fst (fetch series_id raw))
            = map month_begin
                  (months_from k (List.length (fst (fetch series_id raw)))).
Proof.
  destruct raw as [r|e]; [|now exists 0].
  simpl. destruct (dropna_ffill_suffix (resample_MS_mean r)) as [j Hj].
  destruct (index_resample r) as (lo & c & Hidx).
  assert (Hlen : List.length (resample_MS_mean r) = c).
  { rewrite <- (length_map fst). fold (index (resample_MS_mean r)).
    now rewrite Hidx, length_map, length_months_from. }
  rewrite Hj. unfold index. rewrite <- skipn_map.
  fold (index (ffill (resample_MS_mean r))).
  unfold ffill. rewrite index_ffill_from, length_skipn, length_ffill_from.
  rewrite Hidx, Hlen, skipn_map, skipn_months_from.
  now exists (lo + Z.of_nat j).
Qed.

(** X6. Whatever [get_series] returned or raised, the series that [fetch]
    hands on has no missing value, and its timestamps are the first days of
    consecutive months: strictly increasing, each 28 to 31 days after the
    one before. After a failed call it is empty and a warning names the
    series. *)
Theorem fetch_well_formed (series_id : string) (raw : result Series) :
  let s := fst (fetch series_id raw) in
  Forall (fun row => isna (snd row) = false) s
  /\ (exists k, index s = map month_begin (months_from k (List.length s)))
  /\ strictly_increasing (index s) = true
  /\ (forall i a b,
        nth_error (index s) i = Some a -> nth_error (index s) (S i) = Some b ->
        28 * ns_per_day <= b - a <= 31 * ns_per_day)
  /\ (forall exc, raw = Raise exc ->
        fetch series_id raw
        = ([], Some ("Could not load **" ++ series_id ++ "**: " ++ exc)%string)).
Proof.
  intros s. destruct (fetch_index series_id raw) as [k Hk]. fold s in Hk.
  split; [|split; [now exists k|split; [|split]]].
  - unfold s. destruct raw as [r|e]; [apply dropna_present | constructor].
  - rewrite Hk. apply months_strictly_increasing.
  - rewrite Hk. clear Hk. generalize (List.length s) as c. intros c. revert k.
    induction c as [|c IH]; intros k i a b Ha Hb; [destruct i; discriminate|].
    destruct i as [|i].
    + destruct c as [|c']; [discriminate|].
      simpl in Ha, Hb. inversion Ha; inversion Hb; subst.
      apply month_begin_step.
    + simpl in Ha. change (months_from k (S c)) with (k :: months_from (k + 1) c) in Hb.
      simpl in Hb. exact (IH (k + 1) i a b Ha Hb).
  - intros exc ->. reflexivity.
Qed.

Lemma fetch_well_formed_witness :
  nth_error (index (fst (fetch "DPRIME" (Ok Cases.weekly_raw)))) 0
  = Some (ymd 2001 1 1)
  /\ nth_error (index (fst (fetch "DPRIME" (Ok Cases.weekly_raw)))) 1
     = Some (ymd 2001 2 1)
  /\ 28 * ns_per_day <= ymd 2001 2 1 - ymd 2001 1 1 <= 31 * ns_per_day
  /\ fetch "DPRIME" (Raise "timeout")
     = ([], Some "Could not load **DPRIME**: timeout"%string).
Proof.
  assert (H0 : nth_error (index (fst (fetch "DPRIME" (Ok Cases.weekly_raw)))) 0
               = Some (ymd 2001 1 1)) by (vm_compute; reflexivity).
  assert (H1 : nth_error (index (fst (fetch "DPRIME" (Ok Cases.weekly_raw)))) 1
               = Some (ymd 2001 2 1)) by (vm_compute; reflexivity).
  split; [exact H0 | split; [exact H1|]].
  destruct (fetch_well_formed "DPRIME" (Ok Cases.weekly_raw))
    as (_ & _ & _ & Hstep & _).
  destruct (fetch_well_formed "DPRIME" (Raise "timeout"))
    as (_ & _ & _ & _ & Hfail).
  split; [exact (Hstep _ _ _ H0 H1) | exact (Hfail _ eq_refl)].
Defined.
(** ** The lag table *)

Lemma pass_through_lag_sorted (s : Series) (dt : Timestamp) :
  is_monotonic_increasing (index s) = true -> s <> [] ->
  pass_through_lag s dt = Ok (lag_from (last_observed s dt) (lag_window s dt)).
Proof.
  intros Hm Hne. unfold pass_through_lag.
  now rewrite (asof_last_observed dt Hm Hne).
Qed.

Lemma asof_raise (s : Series) (dt : Timestamp) (exn : string) :
  s <> [] -> asof s dt = Raise exn ->
  exn = "asof requires a sorted index"%string
  /\ is_monotonic_increasing (index s) = false.
Proof.
  intros Hne. unfold asof.
  destruct (is_monotonic_increasing (index s)); simpl.
  - destruct s as [|[start v] rest]; [contradiction|].
    destruct (dt <? start); discriminate.
  - intros H. now inversion H.
Qed.

Lemma lag_rows_of_cycle_sorted (label : string) (dt : Timestamp)
    (named : list (string * Series)) :
  (forall name s, In (name, s) named -> is_monotonic_increasing (index s) = true) ->
  exists rows,
    lag_rows_of_cycle label dt named = Ok rows
    /\ map cell rows = map (fun name => (label, name)) (loaded_names named).
Proof.
  induction named as [|[name s] rest IH]; intros Hs; [now exists []|].
  destruct IH as (rows & Hrows & Hcells).
  { intros n' s' Hin. apply (Hs n' s'). now right. }
  simpl lag_rows_of_cycle. unfold loaded_names in *. simpl filter.
  destruct (empty s) eqn:Ee; simpl negb; cbv iota.
  - now exists rows.
  - assert (Hne : s <> []) by (intros ->; discriminate).
    rewrite (pass_through_lag_sorted dt (Hs name s (or_introl eq_refl)) Hne).
    cbn [bind]. rewrite Hrows. cbn [bind].
    eexists. split; [reflexivity|]. simpl. now rewrite Hcells.
Qed.

Lemma lag_rows_of_cycle_raise (label : string) (dt : Timestamp)
    (named : list (string * Series)) (exn : string) :
  lag_rows_of_cycle label dt named = Raise exn ->
  exn = "asof requires a sorted index"%string
  /\ exists name s, In (name, s) named /\ s <> []
                    /\ is_monotonic_increasing (index s) = false.
Proof.
  induction named as [|[name s] rest IH]; [discriminate|].
  simpl. destruct (empty s) eqn:Ee.
  - intros H. destruct (IH H) as (E & n' & s' & Hin & Hs').
    split; [exact E|]. exists n', s'. split; [now right | exact Hs'].
  - assert (Hne : s <> []) by (intros ->; discriminate).
    unfold pass_through_lag.
    destruct (asof s dt) as [b|e] eqn:Ea; cbn [bind].
    + destruct (lag_rows_of_cycle label dt rest) as [rows|e]; cbn [bind];
        [discriminate|].
      intros H. inversion H; subst e.
      destruct (IH eq_refl) as (E & n' & s' & Hin & Hs').
      split; [exact E|]. exists n', s'. split; [now right | exact Hs'].
    + intros H. inversion H; subst e.
      destruct (asof_raise _ Hne Ea) as [E Hu].
      split; [exact E|]. exists name, s. split; [now left | now split].
Qed.

Lemma lag_rows_sorted (i : nat) (cut_dates : list Timestamp)
    (named : list (string * Series)) :
  (forall name s, In (name, s) named ->
                  is_monotonic_increasing (index s) = true) ->
  exists rows,
    lag_rows i cut_dates named = Ok rows
    /\ List.length rows
       = (List.length cut_dates * List.length (loaded_names named))%nat.
Proof.
  intros Hs. revert i. induction cut_dates as [|dt rest IH]; intros i.
  - now exists [].
  - destruct (lag_rows_of_cycle_sorted (cycle_label i dt) dt named Hs)
      as (here & Hhere & Hcells).
    destruct (IH (S i)) as (later & Hlater & Hlen).
    simpl lag_rows. rewrite Hhere, Hlater. cbn [bind].
    exists (here ++ later). split; [reflexivity|].
    rewrite length_app, Hlen. simpl.
    rewrite <- (length_map cell here), Hcells, length_map. reflexivity.
Qed.

Lemma lag_rows_raise (i : nat) (cut_dates : list Timestamp)
    (named : list (string * Series)) (exn : string) :
  lag_rows i cut_dates named = Raise exn ->
  exn = "asof requires a sorted index"%string
  /\ exists name s, In (name, s) named /\ s <> []
                    /\ is_monotonic_increasing (index s) = false.
Proof.
  revert i. induction cut_dates as [|dt rest IH]; intros i; [discriminate|].
  simpl lag_rows.
  destruct (lag_rows_of_cycle (cycle_label i dt) dt named) as [here|e] eqn:Eh;
    cbn [bind].
  - destruct (lag_rows (S i) rest named) as [later|e] eqn:El; cbn [bind];
      [discriminate|].
    intros H. inversion H; subst e. exact (IH (S i) El).
  - intros H. inversion H; subst e. exact (lag_rows_of_cycle_raise _ _ _ Eh).
Qed.

(** X7. The lag table has exactly one row for every cycle start and every
    comparison series that is not empty, provided each series is in
    chronological order; and when the loop raises, it is [asof] refusing a
    non-empty unsorted series: an empty series is skipped before [asof] can
    fail on it. *)
Theorem lag_rows_complete (i : nat) (cut_dates : list Timestamp)
    (named : list (string * Series)) :
  ((forall name s, In (name, s) named ->
                   is_monotonic_increasing (index s) = true) ->
   exists rows,
     lag_rows i cut_dates named = Ok rows
     /\ List.length rows
        = (List.length cut_dates * List.length (loaded_names named))%nat)
  /\ (forall exn,
        lag_rows i cut_dates named = Raise exn ->
        exn = "asof requires a sorted index"%string
        /\ exists name s, In (name, s) named /\ s <> []
                          /\ is_monotonic_increasing (index s) = false).
Proof.
  split; [apply lag_rows_sorted | intros exn; apply lag_rows_raise].
Qed.

Lemma lag_rows_complete_witness :
  (forall name s,
     In (name, s) [("a"%string, Sample.lending_2001); ("b"%string, []);
                   ("c"%string, Sample.lending_gap)] ->
     is_monotonic_increasing (index s) = true)
  /\ (exists rows,
        lag_rows O [Sample.feb_2001; Sample.oct_2001]
                 [("a"%string, Sample.lending_2001); ("b"%string, []);
                  ("c"%string, Sample.lending_gap)] = Ok rows
        /\ List.length rows = 4%nat)
  /\ lag_rows O [Sample.feb_2001] [("u"%string, Sample.unsorted_series)]
     = Raise "asof requires a sorted index".
Proof.
  assert (Hs : forall name s,
             In (name, s) [("a"%string, Sample.lending_2001); ("b"%string, []);
                           ("c"%string, Sample.lending_gap)] ->
             is_monotonic_increasing (index s) = true).
  { intros name s [E | [E | [E | []]]]; inversion E; reflexivity. }
  split; [exact Hs|].
  destruct (lag_rows_complete O [Sample.feb_2001; Sample.oct_2001]
              [("a"%string, Sample.lending_2001); ("b"%string, []);
               ("c"%string, Sample.lending_gap)]) as [Hok _].
  split; [exact (Hok Hs)|].
  destruct (lag_rows_complete O [Sample.feb_2001]
              [("u"%string, Sample.unsorted_series)]) as [_ Hraise].
  destruct (lag_rows O [Sample.feb_2001] [("u"%string, Sample.unsorted_series)])
    as [rows|e] eqn:E; [vm_compute in E; discriminate E|].
  destruct (Hraise e eq_refl) as [-> _]. reflexivity.
Defined.

(** ** The growth table *)

Lemma pre_post_growth_total (s : Series) (dt : Timestamp) :
  exists g, pre_post_growth s dt = Ok g.
Proof.
  rewrite pre_post_growth_cases.
  destruct (empty _ || empty _ || mean_is_zero _); eauto.
Qed.

Lemma growth_rows_of_cycle_total (label : string) (dt : Timestamp)
    (named : list (string * Series)) :
  exists rows,
    growth_rows_of_cycle label dt named = Ok rows
    /\ (List.length rows <= List.length (loaded_names named))%nat
    /\ Forall (fun r => row_cycle r = label /\ In (row_series r) (loaded_names named))
              rows.
Proof.
  unfold loaded_names.
  induction named as [|[name s] rest IH]; [exists []; repeat split; auto|].
  destruct IH as (rows & Hrows & Hlen & Hall).
  simpl growth_rows_of_cycle. simpl filter.
  destruct (empty s); simpl negb; cbv iota.
  - now exists rows.
  - destruct (pre_post_growth_total s dt) as [g Hg]. rewrite Hg, Hrows. cbn [bind].
    assert (Hall' : Forall (fun r => row_cycle r = label
                                     /\ In (row_series r)
                                           (map fst ((name, s) :: filter
                                              (fun p => negb (empty (snd p))) rest)))
                           rows).
    { eapply Forall_impl; [|exact Hall]. intros r [Hc Hin]. split; [exact Hc|].
      now right. }
    destruct g as [pct|].
    + eexists. split; [reflexivity|]. split; [simpl; lia|].
      constructor; [|exact Hall']. split; [reflexivity | now left].
    + exists rows. split; [reflexivity|]. split; [simpl; lia | exact Hall'].
Qed.

Lemma growth_rows_bound (i : nat) (cut_dates : list Timestamp)
    (named : list (string * Series)) :
  exists rows,
    growth_rows i cut_dates named = Ok rows
    /\ (List.length rows
        <= List.length cut_dates * List.length (loaded_names named))%nat.
Proof.
  revert i. induction cut_dates as [|dt rest IH]; intros i.
  - exists []. split; [reflexivity | simpl; lia].
  - destruct (growth_rows_of_cycle_total (cycle_label i dt) dt named)
      as (here & Hhere & Hlen & _).
    destruct (IH (S i)) as (later & Hlater & Hlen').
    simpl growth_rows. rewrite Hhere, Hlater. cbn [bind].
    exists (here ++ later). split; [reflexivity|].
    rewrite length_app. simpl. lia.
Qed.

(** X8. The growth loop never raises, whatever the series hold, and it adds
    at most one row for every cycle start and every series that is not
    empty. *)
Theorem growth_rows_total (i : nat) (cut_dates : list Timestamp)
    (named : list (string * Series)) :
  exists rows,
    growth_rows i cut_dates named = Ok rows
    /\ (List.length rows
        <= List.length cut_dates * List.length (loaded_names named))%nat.
Proof. apply growth_rows_bound. Qed.

(** ** [fetch] followed by the guard and the table loops *)

Lemma fetch_monotonic (series_id : string) (raw : result Series) :
  is_monotonic_increasing (index (fst (fetch series_id raw))) = true.
Proof.
  apply strictly_monotonic.
  destruct (fetch_index series_id raw) as [k Hk]. rewrite Hk.
  apply months_strictly_increasing.
Qed.

(** X9. The guard and the two table loops never raise on series that came
    through [fetch]. Whatever [get_series] returned or raised for each of the
    five series, cycle detection, the no-cycles guard, the lag loop and the
    growth loop end either at the no-cycles stop or with both lists of rows:
    the one exception the lag loop can raise, [asof] refusing an unsorted
    index, is out of reach because [fetch] returns a chronological index.
    When the call for FEDFUNDS raised, the guard stops. The chart calls and
    the pivots that the script runs in between are not part of this
    statement. *)
Theorem table_loops_never_raise_on_fetched
    (fedfunds mortgage dprime rsxfs pce : result Series) :
  (exists outcome,
     dashboard (fst (fetch "FEDFUNDS" fedfunds))
               (fst (fetch "MORTGAGE30US" mortgage))
               (fst (fetch "DPRIME" dprime))
               (fst (fetch "RSXFS" rsxfs))
               (fst (fetch "PCE" pce)) = Ok outcome)
  /\ (forall exc,
        dashboard (fst (fetch "FEDFUNDS" (Raise exc)))
                  (fst (fetch "MORTGAGE30US" mortgage))
                  (fst (fetch "DPRIME" dprime))
                  (fst (fetch "RSXFS" rsxfs))
                  (fst (fetch "PCE" pce)) = Ok (Stopped no_cycles_message)).
Proof.
  split.
  - unfold dashboard.
    destruct (find_cut_cycles _ 3) as [|c cs]; [eauto|].
    match goal with
    | |- context [lag_rows O ?cuts ?named] =>
        destruct (@lag_rows_sorted O cuts named) as (lags & Hlags & _)
    end.
    { intros name s [E | [E | []]]; inversion E; apply fetch_monotonic. }
    rewrite Hlags. cbn [bind].
    match goal with
    | |- context [growth_rows O ?cuts ?named] =>
        destruct (growth_rows_bound O cuts named) as (growth & Hgrowth & _)
    end.
    rewrite Hgrowth. cbn [bind]. eauto.
  - intros exc. reflexivity.
Qed.

(** ** Labels and cell texts *)

(** A decimal numeral is determined by the text up to the first blank. *)
Lemma numeral_before_blank (d1 d2 : Decimal.uint) (r1 r2 : string) :
  (NilEmpty.string_of_uint d1 ++ String " " r1
   = NilEmpty.string_of_uint d2 ++ String " " r2)%string ->
  d1 = d2.
Proof.
  revert d2; induction d1; intros d2 H; destruct d2; simpl in H;
    try discriminate H; try reflexivity;
    inversion H; f_equal; eauto.
Qed.

Lemma show_nat_before_blank (n m : nat) (r1 r2 : string) :
  (show_nat n ++ String " " r1 = show_nat m ++ String " " r2)%string -> n = m.
Proof.
  intros H. apply numeral_before_blank in H.
  now apply DecimalNat.Unsigned.to_uint_inj.
Qed.

Lemma cycle_label_index (i j : nat) (dt dt' : Timestamp) :
  cycle_label i dt = cycle_label j dt' -> i = j.
Proof.
  unfold cycle_label. intros H. inversion H as [H'].
  apply show_nat_before_blank in H'. lia.
Qed.

(** X10. The text of a lag cell tells the outcome: the two sentinels and
    the numeric lags all render differently, and different lags render
    differently. *)
Theorem render_lag_injective (a b : lag_result) :
  render_lag a = render_lag b -> a = b.
Proof.
  destruct a as [|n|], b as [|m|]; unfold render_lag, show_nat; intros H;
    try reflexivity; try discriminate H;
    try (destruct (Nat.to_uint n); simpl in H; discriminate H);
    try (destruct (Nat.to_uint m); simpl in H; discriminate H).
  f_equal. change " mo"%string with (String " " "mo") in H.
  fold (show_nat n) in H. fold (show_nat m) in H.
  now apply show_nat_before_blank in H.
Qed.

Lemma render_lag_injective_witness :
  render_lag (LagMonths 3) = render_lag (LagMonths (1 + 2))
  /\ LagMonths 3 = LagMonths (1 + 2)
  /\ render_lag (LagMonths 24) <> render_lag LagExceeds.
Proof.
  assert (H : render_lag (LagMonths 3) = render_lag (LagMonths (1 + 2)))
    by reflexivity.
  split; [exact H|]. split; [exact (render_lag_injective _ _ H)|].
  intros E. apply render_lag_injective in E. discriminate E.
Defined.

(** ** Pivoting the tables *)

Lemma same_cell_eq (a b : table_row) : same_cell a b = true <-> cell a = cell b.
Proof.
  unfold same_cell, cell. rewrite andb_true_iff, !String.eqb_eq. split.
  - intros [-> ->]. reflexivity.
  - intros E. now inversion E.
Qed.

Lemma duplicate_cell_NoDup (rows : list table_row) :
  duplicate_cell rows = false <-> NoDup (map cell rows).
Proof.
  induction rows as [|r rest IH]; simpl.
  - split; [constructor | reflexivity].
  - rewrite orb_false_iff, IH, NoDup_cons_iff. split.
    + intros [Hex Hnd]. split; [|exact Hnd]. intros Hin.
      apply in_map_iff in Hin as (r' & E & Hr').
      assert (Ht : existsb (same_cell r) rest = true).
      { apply existsb_exists. exists r'. split; [exact Hr'|].
        now apply same_cell_eq. }
      congruence.
    + intros [Hnin Hnd]. split; [|exact Hnd].
      apply not_true_iff_false. intros Ht.
      apply existsb_exists in Ht as (r' & Hr' & Hs).
      apply same_cell_eq in Hs. apply Hnin. rewrite Hs. now apply in_map.
Qed.

Lemma lag_rows_of_cycle_cells (label : string) (dt : Timestamp)
    (named : list (string * Series)) (rows : list table_row) :
  lag_rows_of_cycle label dt named = Ok rows ->
  map cell rows = map (fun name => (label, name)) (loaded_names named).
Proof.
  unfold loaded_names. revert rows.
  induction named as [|[name s] rest IH]; intros rows H.
  - inversion H. reflexivity.
  - simpl in H. simpl filter. destruct (empty s); simpl negb; cbv iota.
    + now apply IH.
    + destruct (pass_through_lag s dt) as [lag|e]; cbn [bind] in H; [|discriminate H].
      destruct (lag_rows_of_cycle label dt rest) as [rows'|e]; cbn [bind] in H;
        [|discriminate H].
      inversion H; subst rows. simpl. now rewrite (IH rows' eq_refl).
Qed.

Lemma growth_rows_of_cycle_cells (label : string) (dt : Timestamp)
    (named : list (string * Series)) (rows : list table_row) :
  NoDup (loaded_names named) ->
  growth_rows_of_cycle label dt named = Ok rows ->
  NoDup (map cell rows)
  /\ Forall (fun r => row_cycle r = label /\ In (row_series r) (loaded_names named))
            rows.
Proof.
  unfold loaded_names. revert rows.
  induction named as [|[name s] rest IH]; intros rows Hnd H.
  - inversion H. split; constructor.
  - simpl in H. simpl filter in *. destruct (empty s); simpl negb in *; cbv iota in *.
    + now apply IH.
    + simpl map in Hnd. apply NoDup_cons_iff in Hnd as [Hnin Hnd].
      destruct (pre_post_growth s dt) as [g|e]; cbn [bind] in H; [|discriminate H].
      destruct (growth_rows_of_cycle label dt rest) as [rows'|e]; cbn [bind] in H;
        [|discriminate H].
      destruct (IH rows' Hnd eq_refl) as [Hnd' Hall].
      assert (Hall' : Forall (fun r => row_cycle r = label
                                       /\ In (row_series r)
                                             (map fst ((name, s) :: filter
                                                (fun p => negb (empty (snd p))) rest)))
                             rows').
      { eapply Forall_impl; [|exact Hall]. intros r [Hc Hin]. split; [exact Hc|].
        now right. }
      destruct g as [pct|]; inversion H; subst rows.
      * split.
        -- simpl. constructor; [|exact Hnd']. intros Hin.
           apply in_map_iff in Hin as (r & E & Hr).
           rewrite Forall_forall in Hall. destruct (Hall r Hr) as [_ Hin'].
           unfold cell in E. inversion E as [[Ec Es]]. rewrite Es in Hin'.
           now apply Hnin.
        -- constructor; [|exact Hall']. split; [reflexivity | now left].
      * split; [exact Hnd' | exact Hall'].
Qed.

(** Rows of the two loops: no cell twice, and every label carries an index
    at or after the one the loop started with. *)
Lemma table_rows_cells
    (per_cycle : string -> Timestamp -> list (string * Series)
                 -> result (list table_row))
    (loop : nat -> list Timestamp -> list (string * Series)
            -> result (list table_row))
    (named : list (string * Series)) :
  (forall i dt rest,
     loop i (dt :: rest) named
     = (here <- per_cycle (cycle_label i dt) dt named ;;
        later <- loop (S i) rest named ;;
        Ok (here ++ later))) ->
  (forall i, loop i [] named = Ok []) ->
  (forall label dt rows,
     per_cycle label dt named = Ok rows ->
     NoDup (map cell rows) /\ Forall (fun r => row_cycle r = label) rows) ->
  forall cut_dates i rows,
    loop i cut_dates named = Ok rows ->
    NoDup (map cell rows)
    /\ Forall (fun r => exists j dt, (i <= j)%nat /\ row_cycle r = cycle_label j dt)
              rows.
Proof.
  intros Hstep Hnil Hper. induction cut_dates as [|dt rest IH]; intros i rows H.
  - rewrite Hnil in H. inversion H. split; constructor.
  - rewrite Hstep in H.
    destruct (per_cycle (cycle_label i dt) dt named) as [here|e] eqn:Eh;
      cbn [bind] in H; [|discriminate H].
    destruct (loop (S i) rest named) as [later|e] eqn:El; cbn [bind] in H;
      [|discriminate H].
    inversion H; subst rows.
    destruct (Hper _ _ _ Eh) as [Hnd Hlabel].
    destruct (IH (S i) later El) as [Hnd' Hlater].
    rewrite Forall_forall in Hlabel, Hlater. split.
    + rewrite map_app. apply NoDup_app; [exact Hnd | exact Hnd' |].
      intros c Hc Hc'.
      apply in_map_iff in Hc as (r & Er & Hr).
      apply in_map_iff in Hc' as (r' & Er' & Hr').
      destruct (Hlater r' Hr') as (j & dt' & Hj & Hl').
      pose proof (Hlabel r Hr) as Hl.
      assert (E : row_cycle r = row_cycle r')
        by (unfold cell in *; congruence).
      rewrite Hl, Hl' in E. apply cycle_label_index in E. lia.
    + apply Forall_forall. intros r Hr. apply in_app_or in Hr as [Hr | Hr].
      * exists i, dt. split; [lia | now apply Hlabel].
      * destruct (Hlater r Hr) as (j & dt' & Hj & Hl').
        exists j, dt'. split; [lia | exact Hl'].
Qed.

Lemma NoDup_map_pair (label : string) (names : list string) :
  NoDup names -> NoDup (map (fun name => (label, name)) names).
Proof.
  induction 1 as [|x l Hx Hl IH]; simpl; constructor; [|exact IH].
  intros Hin. apply in_map_iff in Hin as (y & E & Hy). inversion E; subst. contradiction.
Qed.

Lemma lag_rows_cells (named : list (string * Series)) (cut_dates : list Timestamp)
    (i : nat) (rows : list table_row) :
  NoDup (loaded_names named) ->
  lag_rows i cut_dates named = Ok rows -> NoDup (map cell rows).
Proof.
  intros Hnd H.
  refine (proj1 (table_rows_cells lag_rows_of_cycle lag_rows named _ _ _
                   cut_dates i H)); try reflexivity.
  intros label dt rows' Hrows'.
  pose proof (lag_rows_of_cycle_cells _ _ _ Hrows') as Hc. split.
  - rewrite Hc. now apply NoDup_map_pair.
  - apply Forall_forall. intros r Hr.
    assert (Hin : In (cell r) (map cell rows')) by now apply in_map.
    rewrite Hc in Hin. apply in_map_iff in Hin as (name & E & _).
    unfold cell in E. now inversion E.
Qed.

Lemma growth_rows_cells (named : list (string * Series)) (cut_dates : list Timestamp)
    (i : nat) (rows : list table_row) :
  NoDup (loaded_names named) ->
  growth_rows i cut_dates named = Ok rows -> NoDup (map cell rows).
Proof.
  intros Hnd H.
  refine (proj1 (table_rows_cells growth_rows_of_cycle growth_rows named _ _ _
                   cut_dates i H)); try reflexivity.
  intros label dt rows' Hrows'.
  destruct (growth_rows_of_cycle_cells _ _ _ Hnd Hrows') as [Hc Hall].
  split; [exact Hc|]. eapply Forall_impl; [|exact Hall]. now intros r [E _].
Qed.

(** X11. With distinct series names, the rows of the lag loop and of the
    growth loop never fill a cell twice, so showing either table never
    raises: the pivot is reached only with at least one row and never finds
    a duplicate entry. Pivoting without rows would raise, which the guard
    on the row list prevents. *)
Theorem tables_always_pivot (i : nat) (cut_dates : list Timestamp)
    (named : list (string * Series)) (rows : list table_row) :
  NoDup (loaded_names named) ->
  lag_rows i cut_dates named = Ok rows \/ growth_rows i cut_dates named = Ok rows ->
  NoDup (map cell rows)
  /\ show_table rows = Ok (match rows with [] => None | _ :: _ => Some rows end)
  /\ (exists exn, pivot [] = Raise exn).
Proof.
  intros Hnd H.
  assert (Hc : NoDup (map cell rows)).
  { destruct H as [H | H];
      [exact (lag_rows_cells _ _ _ Hnd H) | exact (growth_rows_cells _ _ _ Hnd H)]. }
  split; [exact Hc|]. split; [|eexists; reflexivity].
  destruct rows as [|r rest]; [reflexivity|].
  unfold show_table, pivot.
  now rewrite (proj2 (duplicate_cell_NoDup (r :: rest)) Hc).
Qed.

Lemma tables_always_pivot_witness :
  NoDup (loaded_names Cases.lending_named)
  /\ exists rows,
       lag_rows O [Sample.feb_2001; Sample.oct_2001] Cases.lending_named = Ok rows
       /\ NoDup (map cell rows)
       /\ show_table rows = Ok (Some rows).
Proof.
  assert (Hnd : NoDup (loaded_names Cases.lending_named)).
  { vm_compute. constructor; [|constructor; [|constructor]].
    - intros [E | []]. discriminate E.
    - intros []. }
  split; [exact Hnd|].
  destruct (lag_rows O [Sample.feb_2001; Sample.oct_2001] Cases.lending_named)
    as [rows|e] eqn:E; [|vm_compute in E; discriminate E].
  exists rows. split; [reflexivity|].
  destruct (@tables_always_pivot O [Sample.feb_2001; Sample.oct_2001]
              Cases.lending_named rows Hnd (or_introl E)) as (Hc & Hshow & _).
  split; [exact Hc|]. rewrite Hshow.
  destruct rows; [vm_compute in E; discriminate E | reflexivity].
Defined.
(** ** Month starts and the 180-day rule *)

Lemma month_begin_span (j : Z) (n : nat) :
  28 * Z.of_nat n * ns_per_day
  <= month_begin (j + Z.of_nat n) - month_begin j
  <= 31 * Z.of_nat n * ns_per_day.
Proof.
  induction n as [|n IH].
  - simpl. rewrite Z.add_0_r. lia.
  - replace (j + Z.of_nat (S n)) with (j + Z.of_nat n + 1) by lia.
    pose proof (month_begin_step (j + Z.of_nat n)). unfold ns_per_day in *. lia.
Qed.

Lemma month_begin_mono (j k : Z) : j <= k -> month_begin j <= month_begin k.
Proof.
  intros H. pose proof (month_begin_span j (Z.to_nat (k - j))) as Hs.
  replace (j + Z.of_nat (Z.to_nat (k - j))) with k in Hs by lia.
  unfold ns_per_day in *. lia.
Qed.

Lemma month_begin_lt_iff (j k : Z) : month_begin j < month_begin k <-> j < k.
Proof.
  split.
  - intros H. destruct (Z_lt_le_dec j k) as [|Hle]; [assumption|].
    apply month_begin_mono in Hle. lia.
  - intros H. pose proof (month_begin_lt j).
    pose proof (@month_begin_mono (j + 1) k ltac:(lia)). lia.
Qed.

Lemma month_split (k : Z) : exists y m0, 0 <= m0 < 12 /\ k = 12 * y + m0.
Proof. exists (k / 12), (k mod 12). Z.div_mod_to_equations. lia. Qed.

Lemma month_begin_civil (y m0 : Z) :
  0 <= m0 < 12 ->
  month_begin (12 * y + m0) = days_from_civil y (m0 + 1) 1 * ns_per_day.
Proof.
  intros H. unfold month_begin, ymd.
  replace ((12 * y + m0) / 12) with y by (Z.div_mod_to_equations; lia).
  replace ((12 * y + m0) mod 12) with m0 by (Z.div_mod_to_equations; lia).
  reflexivity.
Qed.

(** Six months span at least 181 days. *)
Lemma month_begin_span6 (k : Z) :
  181 * ns_per_day <= month_begin (k + 6) - month_begin k.
Proof.
  destruct (month_split k) as (y & m0 & Hm & ->).
  rewrite (@month_begin_civil y m0 Hm).
  assert (C : m0 = 0 \/ m0 = 1 \/ m0 = 2 \/ m0 = 3 \/ m0 = 4 \/ m0 = 5
              \/ m0 = 6 \/ m0 = 7 \/ m0 = 8 \/ m0 = 9 \/ m0 = 10 \/ m0 = 11) by lia.
  destruct C as [->|[->|[->|[->|[->|[->|[->|[->|[->|[->|[->| ->]]]]]]]]]]];
    [ replace (12 * y + 0 + 6) with (12 * y + 6) by lia
    | replace (12 * y + 1 + 6) with (12 * y + 7) by lia
    | replace (12 * y + 2 + 6) with (12 * y + 8) by lia
    | replace (12 * y + 3 + 6) with (12 * y + 9) by lia
    | replace (12 * y + 4 + 6) with (12 * y + 10) by lia
    | replace (12 * y + 5 + 6) with (12 * y + 11) by lia
    | replace (12 * y + 6 + 6) with (12 * (y + 1) + 0) by lia
    | replace (12 * y + 7 + 6) with (12 * (y + 1) + 1) by lia
    | replace (12 * y + 8 + 6) with (12 * (y + 1) + 2) by lia
    | replace (12 * y + 9 + 6) with (12 * (y + 1) + 3) by lia
    | replace (12 * y + 10 + 6) with (12 * (y + 1) + 4) by lia
    | replace (12 * y + 11 + 6) with (12 * (y + 1) + 5) by lia ];
    rewrite month_begin_civil by lia;
    unfold days_from_civil, ns_per_day; decide_conditions;
    Z.div_mod_to_equations; lia.
Qed.

Lemma month_begin_midnight (k : Z) : month_begin k mod ns_per_day = 0.
Proof. unfold month_begin, ymd. apply Z.mod_mul. discriminate. Qed.

(** X12. Between first days of months, which is all a fetched series
    holds, a cut month opens a new cycle exactly when it lies six or more
    months after the cut month before it: six months always span more than
    180 days, five months never do. *)
Theorem six_month_rule (j k : Z) :
  starts_cycle (Some (month_begin j)) (month_begin k) = true <-> 6 <= k - j.
Proof.
  rewrite starts_cycle_gap,
    (days_gap_midnight _ _ (month_begin_midnight j) (month_begin_midnight k)).
  unfold min_spacing_days. split.
  - intros H. destruct (Z_lt_le_dec (k - j) 6) as [Hlt|]; [|assumption].
    exfalso. destruct (Z_lt_le_dec k j) as [Hkj | Hjk].
    + pose proof (@month_begin_mono k j ltac:(lia)). unfold ns_per_day in *. lia.
    + pose proof (month_begin_span j (Z.to_nat (k - j))) as Hs.
      replace (j + Z.of_nat (Z.to_nat (k - j))) with k in Hs by lia.
      unfold ns_per_day in *. lia.
  - intros H. pose proof (month_begin_span6 j).
    pose proof (@month_begin_mono (j + 6) k ltac:(lia)).
    unfold ns_per_day in *. lia.
Qed.
(** ** [add_cut_overlays] *)

Lemma length_overlay_shapes (i : nat) (cut_dates : list Timestamp) (w : Z)
    (rc : option (Z * option Z)) (annotate : bool) :
  List.length (overlay_shapes i cut_dates w rc annotate)
  = (2 * List.length cut_dates)%nat.
Proof.
  revert i; induction cut_dates as [|dt rest IH]; intros i; [reflexivity|].
  simpl. rewrite IH. lia.
Qed.

Lemma overlay_shapes_nth (cut_dates : list Timestamp) (i k : nat) (dt : Timestamp)
    (w : Z) (rc : option (Z * option Z)) (annotate : bool) :
  nth_error cut_dates k = Some dt ->
  let color := nth (Nat.modulo (i + k) 3) CYCLE_COLORS ""%string in
  nth_error (overlay_shapes i cut_dates w rc annotate) (2 * k)
  = Some (Vrect (strftime_Y_m_d dt) (strftime_Y_m_d (add_months dt w)) color rc)
  /\ nth_error (overlay_shapes i cut_dates w rc annotate) (2 * k + 1)
     = Some (Vline (strftime_Y_m_d dt) color
               (if annotate
                then Some ("Cut " ++ show_nat (i + k + 1) ++ " ("
                             ++ strftime_b_Y dt ++ ")")%string
                else None)
               rc).
Proof.
  revert i k; induction cut_dates as [|c rest IH]; intros i k H;
    [destruct k; discriminate|].
  destruct k as [|k].
  - simpl in H. inversion H; subst c. rewrite !Nat.add_0_r. split; reflexivity.
  - simpl in H. specialize (IH (S i) k H).
    replace (S i + k)%nat with (i + S k)%nat in IH by lia.
    replace (2 * S k)%nat with (S (S (2 * k))) by lia.
    replace (S (S (2 * k)) + 1)%nat with (S (S (2 * k + 1))) by lia.
    exact IH.
Qed.

(** X13. [add_cut_overlays] keeps the shapes already in the figure and
    appends two per cycle start, in order: the shaded window from the cycle
    start to [window_months] later, then the dashed line at the cycle start,
    both in the colour at position [k mod 3] of the palette, so the colours
    repeat from the fourth cycle on; the line carries the text
    "Cut k+1 (Mon YYYY)" exactly when [annotate] is set. *)
Theorem add_cut_overlays_shapes (fig : list shape) (cut_dates : list Timestamp)
    (w : Z) (row col : option Z) (annotate : bool) :
  let out := add_cut_overlays fig cut_dates w row col annotate in
  let rc := match row with Some r => Some (r, col) | None => None end in
  firstn (List.length fig) out = fig
  /\ List.length out = (List.length fig + 2 * List.length cut_dates)%nat
  /\ forall k dt,
       nth_error cut_dates k = Some dt ->
       let color := nth (Nat.modulo k 3) CYCLE_COLORS ""%string in
       nth_error out (List.length fig + 2 * k)
       = Some (Vrect (strftime_Y_m_d dt) (strftime_Y_m_d (add_months dt w))
                     color rc)
       /\ nth_error out (List.length fig + 2 * k + 1)
          = Some (Vline (strftime_Y_m_d dt) color
                    (if annotate
                     then Some ("Cut " ++ show_nat (k + 1) ++ " ("
                                  ++ strftime_b_Y dt ++ ")")%string
                     else None)
                    rc).
Proof.
  intros out rc. unfold out, add_cut_overlays. fold rc. split; [|split].
  - rewrite firstn_app, Nat.sub_diag, firstn_all. simpl. apply app_nil_r.
  - now rewrite length_app, length_overlay_shapes.
  - intros k dt H. cbv zeta.
    destruct (overlay_shapes_nth cut_dates O k w rc annotate H) as [Hr Hl].
    simpl Nat.add in Hr, Hl. split.
    + rewrite nth_error_app2 by lia.
      replace (List.length fig + 2 * k - List.length fig)%nat with (2 * k)%nat by lia.
      exact Hr.
    + rewrite nth_error_app2 by lia.
      replace (List.length fig + 2 * k + 1 - List.length fig)%nat
        with (2 * k + 1)%nat by lia.
      exact Hl.
Qed.

Lemma add_cut_overlays_shapes_witness :
  nth_error [Sample.feb_2001; Sample.oct_2001] 1 = Some Sample.oct_2001
  /\ nth_error (add_cut_overlays [] [Sample.feb_2001; Sample.oct_2001] 12
                                 None None true)
               (List.length (@nil shape) + 2 * 1 + 1)
     = Some (Vline "2001-10-01" "#d2a8ff" (Some "Cut 2 (Oct 2001)"%string) None).
Proof.
  assert (H : nth_error [Sample.feb_2001; Sample.oct_2001] 1 = Some Sample.oct_2001)
    by reflexivity.
  split; [exact H|].
  destruct (add_cut_overlays_shapes [] [Sample.feb_2001; Sample.oct_2001] 12
              None None true) as (_ & _ & Hnth).
  destruct (Hnth _ _ H) as [_ Hl]. rewrite Hl. vm_compute. reflexivity.
Defined.

Lemma find_cut_cycles_length (fedfunds : Series) (n : Z) :
  1 <= n -> Z.of_nat (List.length (find_cut_cycles fedfunds n)) <= n.
Proof.
  intros Hn. rewrite find_cut_cycles_detected, slice_last by exact Hn.
  rewrite length_skipn. lia.
Qed.

(** X14. The script asks for three cycles at most, so the overlays of two
    different cycles never share a colour. *)
Theorem overlay_colors_distinct (fedfunds : Series) (w : Z)
    (rc : option (Z * option Z)) (annotate : bool) (k k' : nat) (s s' : shape) :
  let shapes := overlay_shapes O (find_cut_cycles fedfunds 3) w rc annotate in
  k <> k' ->
  nth_error shapes (2 * k) = Some s ->
  nth_error shapes (2 * k') = Some s' ->
  shape_color s <> shape_color s'.
Proof.
  intros shapes Hk Hs Hs'.
  pose proof (@find_cut_cycles_length fedfunds 3 ltac:(lia)) as Hlen.
  assert (Hsome : forall j x, nth_error shapes (2 * j) = Some x ->
                    (j < 3)%nat
                    /\ shape_color x = nth (Nat.modulo j 3) CYCLE_COLORS ""%string).
  { intros j x Hx.
    assert (Hj : (2 * j < List.length shapes)%nat)
      by (apply nth_error_Some; congruence).
    unfold shapes in Hj. rewrite length_overlay_shapes in Hj.
    destruct (nth_error (find_cut_cycles fedfunds 3) j) as [dt|] eqn:Edt;
      [|apply nth_error_None in Edt; lia].
    destruct (overlay_shapes_nth _ O j w rc annotate Edt) as [Hr _].
    fold shapes in Hr. simpl Nat.add in Hr. rewrite Hr in Hx. inversion Hx.
    split; [lia | reflexivity]. }
  destruct (Hsome k s Hs) as [Hk3 ->]. destruct (Hsome k' s' Hs') as [Hk3' ->].
  destruct k as [|[|[|k]]]; [| | |lia];
    (destruct k' as [|[|[|k']]]; [| | |lia]); try contradiction; discriminate.
Qed.

Lemma overlay_colors_distinct_witness :
  0%nat <> 1%nat
  /\ shape_color (Vrect "2001-02-01" "2002-02-01" "#ff7b72" None)
     <> shape_color (Vrect "2001-10-01" "2002-10-01" "#d2a8ff" None).
Proof.
  split; [discriminate|].
  apply (@overlay_colors_distinct Sample.rates_2001 12 None true 0 1);
    [discriminate | vm_compute; reflexivity | vm_compute; reflexivity].
Defined.

(** ** Growth: sign and missing values *)

(** X15. A growth value is positive exactly when the post mean lies above
    the pre mean, as long as the pre mean is positive; with a negative pre
    mean the sign is reversed. *)
Theorem growth_sign (series : Series) (dt : Timestamp) (r : Q) :
  pre_post_growth series dt = Ok (Some (Some r)) ->
  exists a b,
    mean (pre_window series dt) = Some a
    /\ mean (post_window series dt) = Some b
    /\ ~ (a == 0)%Q
    /\ (r == (b - a) / a * 100)%Q
    /\ ((0 < a)%Q -> ((0 < r)%Q <-> (a < b)%Q))
    /\ ((a < 0)%Q -> ((0 < r)%Q <-> (b < a)%Q)).
Proof.
  rewrite pre_post_growth_cases.
  destruct (empty _ || empty _ || mean_is_zero _) eqn:Eg; [discriminate|].
  apply orb_false_iff in Eg as [_ Ez].
  unfold growth_formula. intros H. inversion H as [Hr]. clear H.
  destruct (mean (pre_window series dt)) as [a|]; [|destruct (mean _); discriminate].
  destruct (mean (post_window series dt)) as [b|]; [|discriminate].
  simpl in Hr. inversion Hr; subst r. clear Hr.
  simpl in Ez. apply Qeq_bool_neq in Ez.
  exists a, b. split; [reflexivity|]. split; [reflexivity|]. split; [exact Ez|].
  split; [reflexivity|]. split.
  - intros Ha.
    assert (Hz : (0 < / a * 100)%Q).
    { apply Qmult_lt_0_compat; [now apply Qinv_lt_0_compat | reflexivity]. }
    assert (E : ((b - a) / a * 100 == (b - a) * (/ a * 100))%Q) by (field; exact Ez).
    rewrite E. rewrite <- (Qmult_0_l (/ a * 100)) at 1.
    rewrite (Qmult_lt_r _ _ _ Hz). unfold Qminus. symmetry. apply Qlt_minus_iff.
  - intros Ha.
    assert (Hna : (0 < - a)%Q).
    { apply Qlt_minus_iff in Ha. now rewrite Qplus_0_l in Ha. }
    assert (Hz : (0 < / (- a) * 100)%Q).
    { apply Qmult_lt_0_compat; [now apply Qinv_lt_0_compat | reflexivity]. }
    assert (Ena : ~ (- a == 0)%Q).
    { intros E0. apply Ez. rewrite <- (Qopp_involutive a), E0. reflexivity. }
    assert (E : ((b - a) / a * 100 == (a - b) * (/ (- a) * 100))%Q)
      by (field; try split; assumption).
    rewrite E. rewrite <- (Qmult_0_l (/ (- a) * 100)) at 1.
    rewrite (Qmult_lt_r _ _ _ Hz). unfold Qminus. symmetry. apply Qlt_minus_iff.
Qed.

Lemma growth_sign_witness :
  exists r,
    pre_post_growth Sample.spending_2001 Sample.feb_2001 = Ok (Some (Some r))
    /\ (0 < r)%Q.
Proof.
  assert (Hpre : mean (pre_window Sample.spending_2001 Sample.feb_2001)
                 = Some (200 # 2)%Q) by (vm_compute; reflexivity).
  assert (Hpost : mean (post_window Sample.spending_2001 Sample.feb_2001)
                  = Some (220 # 2)%Q) by (vm_compute; reflexivity).
  destruct (pre_post_growth Sample.spending_2001 Sample.feb_2001)
    as [[[r|]|]|e] eqn:E; try (vm_compute in E; discriminate E).
  exists r. split; [reflexivity|].
  destruct (growth_sign _ _ E) as (a & b & Ha & Hb & _ & _ & Hpos & _).
  rewrite Hpre in Ha. rewrite Hpost in Hb. inversion Ha; inversion Hb; subst a b.
  apply Hpos; reflexivity.
Defined.
(** *** Missing values *)

Lemma present_all (s : Series) :
  Forall (fun row => isna (snd row) = false) s ->
  List.length (present (values s)) = List.length s.
Proof.
  induction 1 as [|[t v] rest Hv Hrest IH]; [reflexivity|].
  simpl in *. destruct v; [simpl; now rewrite IH | discriminate].
Qed.

Lemma mean_of_present (s : Series) :
  s <> [] -> Forall (fun row => isna (snd row) = false) s ->
  exists m, mean s = Some m.
Proof.
  intros Hne Hall. unfold mean. pose proof (present_all Hall) as Hlen.
  destruct (present (values s)) as [|x xs]; [|eauto].
  destruct s; [contradiction | discriminate].
Qed.

Lemma Forall_filter_rows (P : Timestamp * fval -> Prop)
    (f : Timestamp * fval -> bool) (s : Series) :
  Forall P s -> Forall P (filter f s).
Proof.
  rewrite !Forall_forall. intros H row Hin. apply filter_In in Hin as [Hin _]. auto.
Qed.

(** X17. For a series that went through [fetch], a growth row always
    carries a number: the text "+nan%" never reaches the table. *)
Theorem fetched_growth_is_number (series_id : string) (raw : result Series)
    (dt : Timestamp) (pct : fval) :
  pre_post_growth (fst (fetch series_id raw)) dt = Ok (Some pct) ->
  exists r, pct = Some r /\ format_pct pct <> "+nan%"%string.
Proof.
  set (s := fst (fetch series_id raw)).
  assert (Hall : Forall (fun row => isna (snd row) = false) s).
  { unfold s. destruct raw as [r|e]; [apply dropna_present | constructor]. }
  rewrite pre_post_growth_cases.
  destruct (empty (post_window s dt)) eqn:E1; [discriminate|].
  destruct (empty (pre_window s dt)) eqn:E2; [discriminate|].
  simpl orb. destruct (mean_is_zero _); [discriminate|].
  destruct (@mean_of_present (pre_window s dt)) as [a Ha].
  { intros E. rewrite E in E2. discriminate. }
  { now apply Forall_filter_rows. }
  destruct (@mean_of_present (post_window s dt)) as [b Hb].
  { intros E. rewrite E in E1. discriminate. }
  { now apply Forall_filter_rows. }
  rewrite Ha, Hb. unfold growth_formula. simpl. intros H. inversion H.
  eexists. split; [reflexivity|].
  unfold format_pct, show_Z. cbv zeta.
  destruct (Qlt_bool _ 0); [discriminate|].
  destruct (Z.to_int (_ / 10)) as [d|d]; destruct d; simpl; discriminate.
Qed.

Lemma fetched_growth_is_number_witness :
  pre_post_growth (fst (fetch "PCE" (Ok Sample.spending_2001))) Sample.feb_2001
  = Ok (Some (growth_formula (Some (200 # 2)%Q) (Some (220 # 2)%Q)))
  /\ exists r, growth_formula (Some (200 # 2)%Q) (Some (220 # 2)%Q) = Some r.
Proof.
  assert (H : pre_post_growth (fst (fetch "PCE" (Ok Sample.spending_2001)))
                              Sample.feb_2001
              = Ok (Some (growth_formula (Some (200 # 2)%Q) (Some (220 # 2)%Q))))
    by (vm_compute; reflexivity).
  split; [exact H|].
  destruct (fetched_growth_is_number _ _ _ H) as (r & E & _). now exists r.
Defined.
(** ** The lag on fetched series *)

Lemma month_begin_le_iff (j k : Z) : month_begin j <= month_begin k <-> j <= k.
Proof.
  split.
  - intros H. destruct (Z_le_gt_dec j k) as [|Hgt]; [assumption|].
    assert (Hlt : month_begin k < month_begin j) by (apply month_begin_lt_iff; lia).
    lia.
  - apply month_begin_mono.
Qed.

Lemma nth_months_from (k : Z) (c j : nat) (x : Z) :
  nth_error (months_from k c) j = Some x -> x = k + Z.of_nat j.
Proof.
  revert k j; induction c as [|c IH]; intros k j H; [destruct j; discriminate|].
  destruct j as [|j]; simpl in H.
  - inversion H. lia.
  - apply IH in H. lia.
Qed.

Lemma filter_months_all (c : nat) (k0 k : Z) :
  k <= k0 -> filter (fun k' => k <=? k') (months_from k0 c) = months_from k0 c.
Proof.
  revert k0; induction c as [|c IH]; intros k0 H; [reflexivity|].
  simpl. destruct (k <=? k0) eqn:E; [|apply Z.leb_gt in E; lia].
  f_equal. apply IH. lia.
Qed.

Lemma filter_months_from (c : nat) (k0 k : Z) :
  k0 <= k ->
  filter (fun k' => k <=? k') (months_from k0 c)
  = months_from k (c - Z.to_nat (k - k0)).
Proof.
  revert k0; induction c as [|c IH]; intros k0 H; [reflexivity|].
  destruct (Z.eq_dec k0 k) as [-> | Hne].
  - rewrite filter_months_all by lia. now rewrite Z.sub_diag.
  - simpl filter. destruct (k <=? k0) eqn:E; [apply Z.leb_le in E; lia|].
    rewrite IH by lia. f_equal. lia.
Qed.

Lemma index_filter (f : Timestamp -> bool) (s : Series) :
  index (filter (fun row => f (fst row)) s) = filter f (index s).
Proof.
  unfold index. induction s as [|[t v] rest IH]; [reflexivity|].
  cbn [map filter fst]. destruct (f t); [cbn [map fst]; f_equal|]; exact IH.
Qed.

Lemma filter_map_months (k : Z) (ks : list Z) :
  filter (fun t => month_begin k <=? t) (map month_begin ks)
  = map month_begin (filter (fun k' => k <=? k') ks).
Proof.
  induction ks as [|k' ks IH]; [reflexivity|].
  cbn [map filter].
  assert (E : (month_begin k <=? month_begin k') = (k <=? k')).
  { destruct (k <=? k') eqn:Ek.
    - apply Z.leb_le. apply month_begin_le_iff. now apply Z.leb_le.
    - apply Z.leb_gt. apply month_begin_lt_iff. now apply Z.leb_gt. }
  rewrite E. clear E. destruct (k <=? k'); cbn [map]; now rewrite IH.
Qed.

(** X18. On a fetched series the offsets of the lookahead window are
    calendar months: when the cycle start is one of its timestamps, the
    observation at offset [j] is dated the first day of the [j]-th month
    after the month of the cycle start, so a lag of "[j] mo" is [j] months. *)
Theorem lag_offsets_are_months (series_id : string) (raw : result Series)
    (dt : Timestamp) :
  let s := fst (fetch series_id raw) in
  In dt (index s) ->
  exists k,
    dt = month_begin k
    /\ forall j t,
         nth_error (index (lag_window s dt)) j = Some t ->
         t = month_begin (k + Z.of_nat j).
Proof.
  intros s Hin. destruct (fetch_index series_id raw) as [k0 Hk0]. fold s in Hk0.
  rewrite Hk0 in Hin. apply in_map_iff in Hin as (k & Hk & Hin).
  apply In_nth_error in Hin as [i Hi]. apply nth_months_from in Hi.
  exists k. split; [now symmetry|]. intros j t Ht.
  unfold lag_window, head in Ht. unfold index in Ht. rewrite <- firstn_map in Ht.
  assert (Hidx : index (filter (fun row => dt <=? fst row) s)
                 = filter (fun t => dt <=? t) (index s))
    by apply (index_filter (fun t => dt <=? t)).
  change (nth_error (firstn lookahead_months
                       (index (filter (fun row => dt <=? fst row) s))) j = Some t)
    in Ht.
  rewrite Hidx, Hk0, <- Hk in Ht.
  rewrite filter_map_months, filter_months_from in Ht by lia.
  assert (Hj : nth_error (map month_begin
                            (months_from k (List.length s - Z.to_nat (k - k0)))) j
               = Some t).
  { rewrite nth_error_firstn in Ht. now destruct (Nat.ltb j lookahead_months). }
  rewrite nth_error_map in Hj.
  destruct (nth_error (months_from k _) j) as [x|] eqn:Ex; [|discriminate].
  apply nth_months_from in Ex. simpl in Hj. inversion Hj. now subst x.
Qed.

Lemma lag_offsets_are_months_witness :
  In Sample.feb_2001 (index (fst (fetch "DPRIME" (Ok Cases.weekly_raw))))
  /\ nth_error (index (lag_window (fst (fetch "DPRIME" (Ok Cases.weekly_raw)))
                                  Sample.feb_2001)) 2
     = Some (ymd 2001 4 1)
  /\ exists k, Sample.feb_2001 = month_begin k
               /\ ymd 2001 4 1 = month_begin (k + 2).
Proof.
  assert (Hin : In Sample.feb_2001
                   (index (fst (fetch "DPRIME" (Ok Cases.weekly_raw)))))
    by (vm_compute; tauto).
  assert (Hn : nth_error (index (lag_window (fst (fetch "DPRIME" (Ok Cases.weekly_raw)))
                                            Sample.feb_2001)) 2
               = Some (ymd 2001 4 1)) by (vm_compute; reflexivity).
  split; [exact Hin | split; [exact Hn|]].
  destruct (lag_offsets_are_months "DPRIME" (Ok Cases.weekly_raw) _ Hin)
    as (k & Hk & Hoff).
  exists k. split; [exact Hk | exact (Hoff _ _ Hn)].
Defined.

Lemma last_valid_present (vals : list fval) :
  vals <> [] -> Forall (fun v => isna v = false) vals ->
  exists x, last_valid vals = Some x.
Proof.
  intros Hne Hall. destruct (exists_last Hne) as (front & v & ->).
  rewrite last_valid_snoc. apply Forall_app in Hall as [_ Hv].
  inversion Hv as [|? ? Hv' _]; subst. rewrite Hv'. destruct v; [eauto | discriminate].
Qed.

(** X19. For a fetched series that is not empty, the two sentinels tell on
    which side of the data the cycle start falls: a cycle start before the
    first observation gives "n/a", and one after the last observation gives
    ">24 mo", not "n/a". *)
Theorem lag_sentinels_on_fetched (series_id : string) (raw : result Series)
    (dt : Timestamp) :
  let s := fst (fetch series_id raw) in
  s <> [] ->
  ((forall t, In t (index s) -> dt < t) -> pass_through_lag s dt = Ok LagNA)
  /\ ((forall t, In t (index s) -> t < dt) -> pass_through_lag s dt = Ok LagExceeds).
Proof.
  intros s Hne.
  assert (Hall : Forall (fun row => isna (snd row) = false) s).
  { unfold s. destruct raw as [r|e]; [apply dropna_present | constructor]. }
  pose proof (pass_through_lag_sorted dt (fetch_monotonic series_id raw) Hne)
    as Hlag.
  fold s in Hlag. rewrite Hlag. split; intros Hside.
  - unfold last_observed. rewrite filter_none; [reflexivity|].
    intros row Hrow. apply Z.leb_gt. apply Hside. now apply in_map.
  - unfold last_observed, lag_window, head.
    rewrite filter_all, filter_none.
    + destruct (@last_valid_present (values s)) as [x Hx].
      * unfold values. destruct s; [contradiction | discriminate].
      * unfold values. apply Forall_forall. intros v Hv.
        apply in_map_iff in Hv as (row & <- & Hrow).
        rewrite Forall_forall in Hall. now apply Hall.
      * rewrite Hx. reflexivity.
    + intros row Hrow. apply Z.leb_gt. apply Hside. now apply in_map.
    + intros row Hrow. apply Z.leb_le, Z.lt_le_incl. apply Hside. now apply in_map.
Qed.

Lemma lag_sentinels_on_fetched_witness :
  fst (fetch "DPRIME" (Ok Sample.lending_2001)) <> []
  /\ pass_through_lag (fst (fetch "DPRIME" (Ok Sample.lending_2001))) (ymd 2000 6 1)
     = Ok LagNA
  /\ pass_through_lag (fst (fetch "DPRIME" (Ok Sample.lending_2001))) (ymd 2002 6 1)
     = Ok LagExceeds.
Proof.
  assert (Hne : fst (fetch "DPRIME" (Ok Sample.lending_2001)) <> [])
    by (vm_compute; discriminate).
  destruct (lag_sentinels_on_fetched "DPRIME" (Ok Sample.lending_2001)
              (ymd 2000 6 1) Hne) as [Hbefore _].
  destruct (lag_sentinels_on_fetched "DPRIME" (Ok Sample.lending_2001)
              (ymd 2002 6 1) Hne) as [_ Hafter].
  split; [exact Hne|]. split.
  - apply Hbefore. intros t Ht. vm_compute in Ht.
    repeat (destruct Ht as [<- | Ht]; [reflexivity|]). contradiction.
  - apply Hafter. intros t Ht. vm_compute in Ht.
    repeat (destruct Ht as [<- | Ht]; [reflexivity|]). contradiction.
Defined.
(** *** The offset 0 *)

Lemma In_months_from (c : nat) (k0 k : Z) :
  k0 <= k < k0 + Z.of_nat c -> In k (months_from k0 c).
Proof.
  revert k0; induction c as [|c IH]; intros k0 H; [lia|].
  simpl. destruct (Z.eq_dec k0 k) as [E | NE]; [now left|].
  right. apply IH. lia.
Qed.

Lemma months_from_range (c : nat) (k0 x : Z) :
  In x (months_from k0 c) -> k0 <= x < k0 + Z.of_nat c.
Proof.
  revert k0; induction c as [|c IH]; intros k0 H; [contradiction|].
  simpl in H. destruct H as [<- | H]; [lia|]. apply IH in H. lia.
Qed.

(** For a cycle start on the first day of a month, a fetched series either
    begins later (no base), ends earlier (empty window), or has a row at the
    cycle start. *)
Lemma lag_never_zero_month_start (series_id : string) (raw : result Series) (k : Z) :
  pass_through_lag (fst (fetch series_id raw)) (month_begin k) <> Ok (LagMonths 0).
Proof.
  pose proof (fetch_monotonic series_id raw) as Hm.
  destruct (fetch_index series_id raw) as [k0 Hk0].
  remember (fst (fetch series_id raw)) as s eqn:Es. clear Es.
  assert (Hcase : s = [] \/ s <> [])
    by (destruct s; [now left | right; discriminate]).
  destruct Hcase as [-> | Hne]; [discriminate|].
  rewrite (pass_through_lag_sorted (month_begin k) Hm Hne).
  intros H. inversion H as [Hl]. clear H. revert Hl.
  assert (Hidx : forall row, In row s ->
                   exists j, fst row = month_begin j
                             /\ k0 <= j < k0 + Z.of_nat (List.length s)).
  { intros row Hrow. apply (in_map fst) in Hrow. fold (index s) in Hrow.
    rewrite Hk0 in Hrow. apply in_map_iff in Hrow as (j & Ej & Hj).
    exists j. split; [now symmetry | now apply months_from_range]. }
  destruct (Z_lt_ge_dec k k0) as [Hlow | Hlow].
  - unfold last_observed. rewrite filter_none; [discriminate|].
    intros row Hrow. destruct (Hidx row Hrow) as (j & Ej & Hj).
    apply Z.leb_gt.
    assert (Hlt : month_begin k < month_begin j) by (apply month_begin_lt_iff; lia).
    rewrite <- Ej in Hlt. exact Hlt.
  - destruct (Z_lt_ge_dec k (k0 + Z.of_nat (List.length s))) as [Hin | Hhigh].
    + assert (Hk : In (month_begin k) (index s)).
      { rewrite Hk0. apply in_map. apply In_months_from. lia. }
      unfold index in Hk. apply in_map_iff in Hk as ([t v] & Et & Hrow).
      simpl in Et. subst t.
      apply (@lag_from_at_row s (month_begin k) v); [|exact Hrow].
      rewrite Hk0. apply months_strictly_increasing.
    + unfold lag_window, head. rewrite filter_none.
      * unfold lag_from. simpl. destruct (isna _); discriminate.
      * intros row Hrow. destruct (Hidx row Hrow) as (j & Ej & Hj).
        apply Z.leb_gt.
        assert (Hlt : month_begin j < month_begin k) by (apply month_begin_lt_iff; lia).
        rewrite <- Ej in Hlt. exact Hlt.
Qed.

(** A cycle start is one of the timestamps of the rate series. *)
Lemma cycle_start_in_index (fedfunds : Series) (n : Z) (dt : Timestamp) :
  In dt (find_cut_cycles fedfunds n) -> In dt (index fedfunds).
Proof.
  intros H. rewrite find_cut_cycles_detected in H. unfold slice_from in H.
  apply In_skipn_incl in H. unfold detected in H. rewrite walk_cycles in H.
  apply starts_from_incl in H. rewrite cut_months_refines in H.
  unfold cut_months_spec in H. apply in_map_iff in H as ([a b] & E & H).
  simpl in E; subst dt. apply filter_In in H as [Hin _].
  apply in_adjacent in Hin as (i & _ & Hb).
  apply nth_error_In in Hb. now apply in_map.
Qed.

(** X25. In the lag loop as the script feeds it, the lag is never the
    number 0. A cycle start detected in the fetched FEDFUNDS series is the
    first day of a month; a fetched comparison series then either has its
    own row at that date, which is the base and cannot lie below itself, or
    begins after it ("n/a"), or ends before it (">24 mo"). *)
Theorem lag_never_zero_on_fetched (fedfunds : result Series) (n : Z)
    (series_id : string) (raw : result Series) (dt : Timestamp) :
  In dt (find_cut_cycles (fst (fetch "FEDFUNDS" fedfunds)) n) ->
  pass_through_lag (fst (fetch series_id raw)) dt <> Ok (LagMonths 0).
Proof.
  intros H. apply cycle_start_in_index in H.
  destruct (fetch_index "FEDFUNDS" fedfunds) as [k0 Hk0].
  rewrite Hk0 in H. apply in_map_iff in H as (k & <- & _).
  apply lag_never_zero_month_start.
Qed.

Lemma lag_never_zero_on_fetched_witness :
  In Sample.feb_2001 (find_cut_cycles (fst (fetch "FEDFUNDS" (Ok Sample.rates_2001))) 3)
  /\ pass_through_lag (fst (fetch "DPRIME" (Ok Sample.lending_2001))) Sample.feb_2001
     <> Ok (LagMonths 0).
Proof.
  assert (H : In Sample.feb_2001
                 (find_cut_cycles (fst (fetch "FEDFUNDS" (Ok Sample.rates_2001))) 3))
    by (vm_compute; tauto).
  split; [exact H|].
  exact (@lag_never_zero_on_fetched (Ok Sample.rates_2001) 3 "DPRIME"
           (Ok Sample.lending_2001) Sample.feb_2001 H).
Defined.

(** ** Calendar months and [pd.DateOffset] *)

(** The day number of a date, split into the 400-year era, the year of the
    era and the day of the year that starts in March, converts back. *)
Lemma civil_of_era (era yoe doy : Z) :
  0 <= yoe < 400 -> 0 <= doy < 365 ->
  civil_from_days (era * 146097 + (yoe * 365 + yoe / 4 - yoe / 100 + doy) - 719468)
  = (let mp := (5 * doy + 2) / 153 in
     let d := doy - (153 * mp + 2) / 5 + 1 in
     let m := if mp <? 10 then mp + 3 else mp - 9 in
     let y := yoe + era * 400 in
     (if m <=? 2 then y + 1 else y, m, d)).
Proof.
  intros Hyoe Hdoy. unfold civil_from_days.
  set (doe := yoe * 365 + yoe / 4 - yoe / 100 + doy).
  assert (Hdoe : 0 <= doe < 146097) by (unfold doe; Z.div_mod_to_equations; lia).
  replace (era * 146097 + doe - 719468 + 719468) with (era * 146097 + doe) by lia.
  assert (E1 : (era * 146097 + doe) / 146097 = era) by (Z.div_mod_to_equations; lia).
  cbv zeta. rewrite E1. replace (era * 146097 + doe - era * 146097) with doe by lia.
  assert (E2 : (doe - doe / 1460 + doe / 36524 - doe / 146096) / 365 = yoe)
    by (unfold doe; Z.div_mod_to_equations; lia).
  rewrite E2.
  replace (doe - (365 * yoe + yoe / 4 - yoe / 100)) with doy by (unfold doe; lia).
  reflexivity.
Qed.

(** The first day of any month of any year converts to its day number and
    back. *)
Lemma civil_round_trip_first (y m0 : Z) :
  0 <= m0 < 12 ->
  civil_from_days (days_from_civil y (m0 + 1) 1) = (y, m0 + 1, 1).
Proof.
  intros H.
  assert (C : m0 = 0 \/ m0 = 1 \/ m0 = 2 \/ m0 = 3 \/ m0 = 4 \/ m0 = 5
              \/ m0 = 6 \/ m0 = 7 \/ m0 = 8 \/ m0 = 9 \/ m0 = 10 \/ m0 = 11) by lia.
  unfold days_from_civil.
  destruct C as [->|[->|[->|[->|[->|[->|[->|[->|[->|[->|[->| ->]]]]]]]]]]];
    decide_conditions;
    match goal with
    | |- civil_from_days (?yy / 400 * 146097 + (_ + ?doy) - 719468) = _ =>
        let v := eval vm_compute in doy in
        change doy with v;
        assert (Hy : 0 <= yy - yy / 400 * 400 < 400) by (Z.div_mod_to_equations; lia);
        rewrite (@civil_of_era (yy / 400) (yy - yy / 400 * 400) v Hy ltac:(lia))
    end;
    cbv zeta; decide_conditions; vm_compute (_ / 153);
    f_equal; try (f_equal; try reflexivity; lia); try reflexivity.
Qed.

Lemma civil_of_month_begin (k : Z) :
  civil_from_days (month_begin k / ns_per_day) = (k / 12, k mod 12 + 1, 1).
Proof.
  unfold month_begin, ymd. rewrite Z.div_mul by discriminate.
  apply civil_round_trip_first. apply Z.mod_pos_bound. lia.
Qed.

Lemma days_in_month_min (y m : Z) : Z.min 1 (days_in_month y m) = 1.
Proof.
  unfold days_in_month.
  destruct (m =? 2); [destruct (is_leap y); reflexivity|].
  destruct ((m =? 4) || (m =? 6) || (m =? 9) || (m =? 11)); reflexivity.
Qed.

(** A month offset moves a first of month to the first of the month that
    many months away. *)
Lemma add_months_month_begin (k n : Z) :
  add_months (month_begin k) n = month_begin (k + n).
Proof.
  unfold add_months. rewrite civil_of_month_begin, month_begin_midnight.
  cbv zeta. rewrite days_in_month_min, Z.add_0_r.
  replace (k / 12 * 12 + (k mod 12 + 1 - 1) + n) with (k + n)
    by (Z.div_mod_to_equations; lia).
  reflexivity.
Qed.

Lemma strftime_month_begin (k : Z) :
  strftime_Y_m_d (month_begin k) = first_of_month_text k.
Proof. unfold strftime_Y_m_d. now rewrite civil_of_month_begin. Qed.

(** X20. For a cycle start on the first of a month, the shaded window runs
    from that day to the first of the month [window_months] later, and the
    dashed line stands on its left edge. *)
Theorem overlay_spans_months (cut_dates : list Timestamp) (i : nat) (k w : Z)
    (rc : option (Z * option Z)) (annotate : bool) :
  nth_error cut_dates i = Some (month_begin k) ->
  exists color text,
    nth_error (overlay_shapes O cut_dates w rc annotate) (2 * i)
    = Some (Vrect (first_of_month_text k) (first_of_month_text (k + w)) color rc)
    /\ nth_error (overlay_shapes O cut_dates w rc annotate) (2 * i + 1)
       = Some (Vline (first_of_month_text k) color text rc).
Proof.
  intros H. destruct (overlay_shapes_nth cut_dates O i w rc annotate H) as [Hr Hl].
  rewrite add_months_month_begin, !strftime_month_begin in Hr.
  rewrite strftime_month_begin in Hl. eauto.
Qed.

Lemma overlay_spans_months_witness :
  nth_error [month_begin (2001 * 12 + 9)] 0 = Some (month_begin (2001 * 12 + 9))
  /\ exists color text,
       nth_error (overlay_shapes O [month_begin (2001 * 12 + 9)] 18 None true) 0
       = Some (Vrect "2001-10-01" "2003-04-01" color None)
       /\ nth_error (overlay_shapes O [month_begin (2001 * 12 + 9)] 18 None true) 1
          = Some (Vline "2001-10-01" color text None).
Proof.
  split; [reflexivity|].
  exact (@overlay_spans_months [month_begin (2001 * 12 + 9)] 0 (2001 * 12 + 9) 18
           None true eq_refl).
Defined.

(** ** The growth windows on fetched series *)

Lemma count_months_in_range (n : nat) (k0 lo hi : Z) :
  (List.length (filter (fun k' => Z.ltb lo k' && Z.leb k' hi) (months_from k0 n))
   <= Z.to_nat (hi - Z.max lo (k0 - 1)))%nat.
Proof.
  revert k0; induction n as [|n IH]; intros k0; [simpl; lia|].
  simpl. specialize (IH (k0 + 1)).
  destruct (lo <? k0) eqn:E1; destruct (k0 <=? hi) eqn:E2; simpl;
    try apply Z.ltb_lt in E1; try apply Z.ltb_ge in E1;
    try apply Z.leb_le in E2; try apply Z.leb_gt in E2; lia.
Qed.

Lemma filter_window_months (lo hi : Z) (ks : list Z) :
  filter (fun t => (month_begin lo <? t) && (t <=? month_begin hi))
         (map month_begin ks)
  = map month_begin (filter (fun k' => (lo <? k') && (k' <=? hi)) ks).
Proof.
  induction ks as [|k' ks IH]; [reflexivity|].
  cbn [map filter].
  assert (E : (month_begin lo <? month_begin k') && (month_begin k' <=? month_begin hi)
              = (lo <? k') && (k' <=? hi)).
  { f_equal.
    - destruct (lo <? k') eqn:Ek.
      + apply Z.ltb_lt, month_begin_lt_iff. now apply Z.ltb_lt.
      + apply Z.ltb_ge, month_begin_le_iff. now apply Z.ltb_ge.
    - destruct (k' <=? hi) eqn:Ek.
      + apply Z.leb_le, month_begin_le_iff. now apply Z.leb_le.
      + apply Z.leb_gt, month_begin_lt_iff. now apply Z.leb_gt. }
  rewrite E. clear E. destruct ((lo <? k') && (k' <=? hi)); cbn [map]; now rewrite IH.
Qed.

Lemma window_months_bound (s : Series) (k0 lo hi : Z) :
  index s = map month_begin (months_from k0 (List.length s)) ->
  lo <= hi ->
  let rows := filter (fun row => (month_begin lo <? fst row)
                                 && (fst row <=? month_begin hi)) s in
  (List.length rows <= Z.to_nat (hi - lo))%nat
  /\ forall row, In row rows <->
                 In row s /\ exists k', lo < k' <= hi /\ fst row = month_begin k'.
Proof.
  intros Hidx Hle rows. split.
  - assert (E : index rows
                = filter (fun t => (month_begin lo <? t) && (t <=? month_begin hi))
                         (index s))
      by apply (index_filter (fun t => (month_begin lo <? t) && (t <=? month_begin hi))).
    assert (L : List.length rows = List.length (index rows))
      by (unfold index; now rewrite length_map).
    rewrite L, E, Hidx, filter_window_months, length_map.
    pose proof (count_months_in_range (List.length s) k0 lo hi). lia.
  - intros row. unfold rows. rewrite filter_In, andb_true_iff, Z.ltb_lt, Z.leb_le.
    split.
    + intros [Hin [Hlo Hhi]]. split; [exact Hin|].
      assert (Ht : In (fst row) (index s)) by now apply in_map.
      rewrite Hidx in Ht. apply in_map_iff in Ht as (k' & Hk' & _).
      exists k'. rewrite <- Hk' in *. split; [|reflexivity].
      split; [now apply month_begin_lt_iff | now apply month_begin_le_iff].
    + intros [Hin (k' & [Hlo Hhi] & ->)]. split; [exact Hin|].
      split; [now apply month_begin_lt_iff | now apply month_begin_le_iff].
Qed.

(** X21. On a fetched series and for a cycle start on the first of month
    [k], the pre window holds the observations of the twelve months ending
    with month [k] and the post window those of the twelve months after it;
    each holds at most twelve observations. *)
Theorem growth_windows_are_months (series_id : string) (raw : result Series) (k : Z) :
  let s := fst (fetch series_id raw) in
  let dt := month_begin k in
  (forall row, In row (pre_window s dt) <->
               In row s /\ exists k', k - 12 < k' <= k /\ fst row = month_begin k')
  /\ (forall row, In row (post_window s dt) <->
                  In row s /\ exists k', k < k' <= k + 12 /\ fst row = month_begin k')
  /\ (List.length (pre_window s dt) <= 12)%nat
  /\ (List.length (post_window s dt) <= 12)%nat.
Proof.
  intros s dt. destruct (fetch_index series_id raw) as [k0 Hk0]. fold s in Hk0.
  unfold pre_window, post_window, window_months, dt.
  rewrite !add_months_month_begin.
  destruct (@window_months_bound s k0 (k + - 12) k Hk0 ltac:(lia)) as [Hlen Hin].
  destruct (@window_months_bound s k0 k (k + 12) Hk0 ltac:(lia)) as [Hlen' Hin'].
  split; [|split; [exact Hin'|split]].
  - intros row. rewrite Hin. split; intros [H (k' & Hr & E)];
      (split; [exact H|]; exists k'; split; [lia | exact E]).
  - eapply Nat.le_trans; [exact Hlen | lia].
  - eapply Nat.le_trans; [exact Hlen' | lia].
Qed.
(** ** Appending observations *)

Lemma diff_from_app (s more : Series) (v0 : fval) :
  diff_from v0 (s ++ more)
  = diff_from v0 s ++ diff_from (last (values s) v0) more.
Proof.
  revert v0; induction s as [|[t v] rest IH]; intros v0; [reflexivity|].
  rewrite <- app_comm_cons. cbn [diff_from]. rewrite IH, <- app_comm_cons.
  unfold values. cbn [map snd]. now rewrite last_cons.
Qed.

(** X23. Later observations never rewrite history: the cycle starts detected
    in a series are still detected, in the same order and ahead of any new
    ones, after observations have been appended. *)
Theorem detected_prefix_stable (fedfunds more : Series) :
  exists later, detected (fedfunds ++ more) = detected fedfunds ++ later.
Proof.
  unfold detected. rewrite !walk_cycles.
  assert (Hcuts : exists cuts', cut_months (fedfunds ++ more)
                                = cut_months fedfunds ++ cuts').
  { unfold cut_months. destruct fedfunds as [|[t v] rest].
    - eexists. reflexivity.
    - change (diff (((t, v) :: rest) ++ more))
        with ((t, NaN) :: diff_from v (rest ++ more)).
      change (diff ((t, v) :: rest)) with ((t, NaN) :: diff_from v rest).
      rewrite diff_from_app. unfold dropna, index.
      cbn [filter snd isna negb NaN]. rewrite !filter_app, map_app.
      eexists. reflexivity. }
  destruct Hcuts as [cuts' ->]. rewrite starts_from_app. eexists. reflexivity.
Qed.

(** ** The exact-rational reading against binary64

    The embedding computes with exact rationals. On the values of the two
    worked examples, and for the difference of a value with itself, IEEE
    binary64 arithmetic gives the same answers. Where a difference lands
    exactly on a threshold the two can part, as the last example shows. *)

Module Binary64.

Import Floats.
#[local] Set Warnings "-inexact-float".
#[local] Open Scope float_scope.

Example lag_example_binary64 :
  (6.5 - 6.5 <=? -0.25, 6.4 - 6.5 <=? -0.25, 6.3 - 6.5 <=? -0.25, 6.2 - 6.5 <=? -0.25)
  = (false, false, false, true).
Proof. vm_compute. reflexivity. Qed.

Example growth_example_binary64 : (110 - 100) / 100 * 100 = 10.
Proof. vm_compute. reflexivity. Qed.

(** No binary64 value, finite, infinite or NaN, lies 0.25 below itself. *)
Lemma sub_self_no_decline (v : float) : (v - v <=? -0.25) = false.
Proof.
  rewrite leb_spec, sub_spec.
  destruct (Prim2SF v) as [s|s| |s m e].
  - destruct s; reflexivity.
  - destruct s; reflexivity.
  - reflexivity.
  - unfold SF64sub, SFsub. rewrite Z.sub_diag. reflexivity.
Qed.

(** At a boundary the two readings can part: 1.00 - 1.05 rounds to a
    binary64 value just below -0.05, so the code counts a fall of exactly
    five basis points as a cut month where exact arithmetic does not. *)
Example boundary_fall_binary64 : (1.00 - 1.05 <? -0.05) = true.
Proof. vm_compute. reflexivity. Qed.

End Binary64.
